(** * xi_financial_advisor: the dashboard script's pure transforms

    A shallow embedding of [app/static/js/dashboard.js]:
    - the forecast sanitizer and summary arithmetic of [renderPredictionCharts],
    - [getRangeDisplay],
    - [formatMarkdown] and the regular-expression replacements it chains.

    JavaScript numbers are IEEE 754 binary64 values; they are embedded as
    Rocq's primitive [float], whose operations are the same binary64
    operations (round to nearest, ties to even) and whose specification is
    [FloatAxioms].  JavaScript strings are embedded as [string] over 8-bit
    characters. *)

From Stdlib Require Import Floats ZArith List Bool Lia String Ascii.
From Stdlib Require Import DecimalString.
Import ListNotations.

Set Warnings "-inexact-float".
Local Open Scope float_scope.

(** ** JavaScript values and numeric builtins *)

Module JS.

(** A property that is "a number, NaN, or absent": reading an absent
    property yields [undefined]. *)
Inductive value : Type :=
| undefined
| number (x : float).

(** [ToNumber]: [undefined] converts to NaN, a number to itself. *)
Definition ToNumber (v : value) : float :=
  match v with
  | undefined => nan
  | number x => x
  end.

(** The global [isNaN(v)]: [ToNumber(v)] is NaN. *)
Definition isNaN (v : value) : bool := is_nan (ToNumber v).

(** An array length as a Number (array lengths are below 2^32, so exact). *)
Definition of_length (n : nat) : float :=
  of_uint63 (Uint63.of_Z (Z.of_nat n)).

(** [Math.min(...args)], ECMA-262 21.3.2.25: start from +Infinity; a NaN
    argument makes the result NaN; -0 is below +0. *)
Definition min_step (lowest n : float) : float :=
  match classify n, classify lowest with
  | FloatClass.NZero, FloatClass.PZero => n
  | _, _ => if n <? lowest then n else lowest
  end.

Fixpoint Math_min_from (lowest : float) (args : list float) : float :=
  match args with
  | [] => lowest
  | n :: rest => if is_nan n then nan else Math_min_from (min_step lowest n) rest
  end.

Definition Math_min (args : list float) : float := Math_min_from infinity args.

(** [Math.max(...args)], ECMA-262 21.3.2.24: start from -Infinity; a NaN
    argument makes the result NaN; +0 is above -0. *)
Definition max_step (highest n : float) : float :=
  match classify n, classify highest with
  | FloatClass.PZero, FloatClass.NZero => n
  | _, _ => if highest <? n then n else highest
  end.

Fixpoint Math_max_from (highest : float) (args : list float) : float :=
  match args with
  | [] => highest
  | n :: rest => if is_nan n then nan else Math_max_from (max_step highest n) rest
  end.

Definition Math_max (args : list float) : float := Math_max_from neg_infinity args.

(** Decimal digits of a non-negative integer. *)
Definition digits (n : Z) : string := NilZero.string_of_uint (N.to_uint (Z.to_N n)).

(** [s.padStart(k, "0")]. *)
Fixpoint zeros (k : nat) : string :=
  match k with
  | O => EmptyString
  | S k' => String "0" (zeros k')
  end.

Definition pad_left (k : nat) (s : string) : string :=
  append (zeros (k - String.length s)) s.

(** The fixed-notation branch of [Number.prototype.toFixed(2)], ECMA-262
    21.1.3.3 steps 9-11, for the exact value [m * 2^e] (m >= 0):
    [n] is the integer nearest to [100 * m * 2^e], the larger one on a tie. *)
Definition round_hundredths (m e : Z) : Z :=
  match e with
  | Zneg k => (200 * m + 2 ^ Zpos k) / 2 ^ (Zpos k + 1)
  | _ => 100 * m * 2 ^ e
  end.

Definition fixed2 (n : Z) : string :=
  let m := pad_left 3 (digits n) in
  let k := String.length m in
  append (substring 0 (k - 2) m) (append "." (substring (k - 2) 2 m)).

(** [Number::toString] for an integer value [X >= 10^21], ECMA-262 6.1.6.1.20:
    the shortest digit string [s] (k digits) with [s * 10^(n-k)] rounding to
    the same binary64 value, the closest such one, printed in exponent
    notation. *)
Definition num_digits (X : Z) : nat := String.length (digits X).

Definition rounds_to (V : Z) (x : spec_float) : bool :=
  match binary_normalize prec emax V 0 false, x with
  | S754_finite s1 m1 e1, S754_finite s2 m2 e2 =>
      Bool.eqb s1 s2 && Pos.eqb m1 m2 && Z.eqb e1 e2
  | _, _ => false
  end.

Definition exponent_form (V : Z) (k : nat) : string :=
  let n := num_digits V in
  let s := digits (V / 10 ^ Z.of_nat (n - k)) in
  let mant := match k with
              | 1%nat => s
              | _ => append (substring 0 1 s) (append "." (substring 1 (k - 1) s))
              end in
  append mant (append "e+" (digits (Z.of_nat (n - 1)))).

Fixpoint shortest_from (fuel k : nat) (X : Z) (x : spec_float) : string :=
  match fuel with
  | O => exponent_form X 17
  | S fuel' =>
      let P := 10 ^ Z.of_nat (num_digits X - k) in
      let lo := (X / P) * P in
      let hi := lo + P in
      let oklo := rounds_to lo x in
      let okhi := rounds_to hi x in
      let pick_lo := (* closest to X, the even digit string on a tie *)
        (X - lo <? hi - X) || ((X - lo =? hi - X) && Z.even (X / P)) in
      if oklo && okhi then exponent_form (if pick_lo then lo else hi) k
      else if oklo then exponent_form lo k
      else if okhi then exponent_form hi k
      else shortest_from fuel' (S k) X x
  end%Z.

Definition toString_large (X : Z) (x : spec_float) : string :=
  shortest_from 17 1 X x.

(** The exact value [m * 2^e] is at least [10^21]. *)
Definition at_least_1e21 (m : positive) (e : Z) : bool :=
  match e with
  | Zneg _ => false                 (* m < 2^53 < 10^21 *)
  | _ => (10 ^ 21 <=? Zpos m * 2 ^ e)%Z
  end.

(** [x.toFixed(2)], ECMA-262 21.1.3.3: a number that is not finite prints
    as [String(x)]; the sign is split off; a magnitude of [10^21] or more
    prints as [String(x)], a smaller one in fixed notation. *)
Definition toFixed2 (x : float) : string :=
  match Prim2SF x with
  | S754_nan => "NaN"
  | S754_infinity s => if s then "-Infinity" else "Infinity"
  | S754_zero _ => "0.00"
  | S754_finite s m e =>
      append (if s then "-" else "")
        (if at_least_1e21 m e
         then toString_large (Zpos m * 2 ^ e) (S754_finite false m e)
         else fixed2 (round_hundredths (Zpos m) e))
  end%string.

End JS.

(** ** dashboard.js: the prediction summary

    The pure computations of [renderPredictionCharts] (lines 359-491) and
    [getRangeDisplay] (lines 620-634). *)

Module ForecastPoint.
Record t : Type := mk
  { day : Z;
    forecast : JS.value;
    lower_ci : JS.value;
    upper_ci : JS.value }.
End ForecastPoint.

Module Prediction.
Record t : Type := mk
  { symbol : string;
    last_price : float;
    forecast : list ForecastPoint.t }.
End Prediction.

Module Dashboard.
Import JS.

(** [point => isNaN(point.forecast) ? 0 : point.forecast] *)
Definition forecastValue (point : ForecastPoint.t) : float :=
  if isNaN (ForecastPoint.forecast point) then 0
  else ToNumber (ForecastPoint.forecast point).

(** [point => isNaN(point.lower_ci)
       ? (isNaN(point.forecast) ? 0 : point.forecast * 0.9) : point.lower_ci] *)
Definition lowerValue (point : ForecastPoint.t) : float :=
  if isNaN (ForecastPoint.lower_ci point)
  then (if isNaN (ForecastPoint.forecast point) then 0
        else ToNumber (ForecastPoint.forecast point) * 0.9)
  else ToNumber (ForecastPoint.lower_ci point).

(** [point => isNaN(point.upper_ci)
       ? (isNaN(point.forecast) ? 0 : point.forecast * 1.1) : point.upper_ci] *)
Definition upperValue (point : ForecastPoint.t) : float :=
  if isNaN (ForecastPoint.upper_ci point)
  then (if isNaN (ForecastPoint.forecast point) then 0
        else ToNumber (ForecastPoint.forecast point) * 1.1)
  else ToNumber (ForecastPoint.upper_ci point).

Definition forecastValues (prediction : Prediction.t) : list float :=
  map forecastValue (Prediction.forecast prediction).

Definition lowerCI (prediction : Prediction.t) : list float :=
  map lowerValue (Prediction.forecast prediction).

Definition upperCI (prediction : Prediction.t) : list float :=
  map upperValue (Prediction.forecast prediction).

(** [forecastValues.filter(value => !isNaN(value) && value > 0)] *)
Definition validValues (prediction : Prediction.t) : list float :=
  filter (fun value => negb (is_nan value) && (0 <? value))
         (forecastValues prediction).

(** [values.reduce((a, b) => a + b, 0)] *)
Definition sum (values : list float) : float :=
  fold_left (fun a b => a + b) values 0.

Definition avgForecast (prediction : Prediction.t) : float :=
  let valid := validValues prediction in
  if (0 <? List.length valid)%nat
  then sum valid / of_length (List.length valid)
  else Prediction.last_price prediction.

Definition percentChange (prediction : Prediction.t) : float :=
  if 0 <? Prediction.last_price prediction
  then ((avgForecast prediction - Prediction.last_price prediction)
          / Prediction.last_price prediction) * 100
  else 0.

Definition trendClass (prediction : Prediction.t) : string :=
  if 0 <? percentChange prediction then "trend-up"
  else if percentChange prediction <? 0 then "trend-down"
  else "trend-neutral".

(** [getRangeDisplay(lowerArray, upperArray)] *)
Definition getRangeDisplay (lowerArray upperArray : list float) : string :=
  let validLower := filter (fun val => negb (is_nan val)) lowerArray in
  let validUpper := filter (fun val => negb (is_nan val)) upperArray in
  if ((List.length validLower =? 0) || (List.length validUpper =? 0))%nat
  then "Range not available"
  else
    let minValue := Math_min validLower in
    let maxValue := Math_max validUpper in
    append "$" (append (toFixed2 minValue)
      (append " - $" (toFixed2 maxValue))).

(** The "Forecast range" line of the summary card. *)
Definition forecastRange (prediction : Prediction.t) : string :=
  getRangeDisplay (lowerCI prediction) (upperCI prediction).

End Dashboard.

(** ** JavaScript regular expressions

    The fragment [formatMarkdown] uses, with the backtracking semantics of
    ECMA-262 22.2.2: a matcher takes a continuation and tries its
    alternatives in priority order. *)

Module RegExp.
Local Open Scope string_scope.
Local Open Scope nat_scope.

(** Patterns.  Quantifiers only ever apply to a single-character class in
    dashboard.js, and groups are neither nested nor quantified. *)
Inductive re : Type :=
| Str (w : string)               (* a literal run of characters *)
| Cls (p : ascii -> bool)        (* one character of a class *)
| Star (p : ascii -> bool)       (* [p*], greedy *)
| StarLazy (p : ascii -> bool)   (* [p*?] *)
| Plus (p : ascii -> bool)       (* [p+], greedy *)
| Bol                            (* [^] under flag m *)
| Eol                            (* [$] under flag m *)
| Seq (a b : re)
| Group (a : re).                (* a capturing group *)

Declare Scope re_scope.
Delimit Scope re_scope with re.
Bind Scope re_scope with re.
Infix "+++" := Seq (at level 60, right associativity) : re_scope.

(** Line terminators among the 8-bit characters: LF and CR. *)
Definition line_terminator (c : ascii) : bool :=
  Ascii.eqb c "010" || Ascii.eqb c "013".

(** [.] (without flag s) *)
Definition dot (c : ascii) : bool := negb (line_terminator c).

(** [\s]: TAB, LF, VT, FF, CR, SPACE, NBSP *)
Definition space (c : ascii) : bool :=
  let n := nat_of_ascii c in
  ((9 <=? n) && (n <=? 13)) || (n =? 32) || (n =? 160).

(** [\d] *)
Definition digit (c : ascii) : bool :=
  let n := nat_of_ascii c in (48 <=? n) && (n <=? 57).

(** [[^c]] *)
Definition other_than (c : ascii) (d : ascii) : bool := negb (Ascii.eqb c d).

(** [[\-\*]] *)
Definition bullet (c : ascii) : bool := Ascii.eqb c "-" || Ascii.eqb c "*".

(** A matcher runs from a position of the subject, described by the
    character before it (none at index 0), the text from it on, the number
    of characters matched so far and the captures made so far; it answers
    with the length of the match and its captures. *)
Definition result : Type := nat * list string.
Definition cont : Type := option ascii -> string -> nat -> list string -> option result.

Definition accept : cont := fun _ _ n cs => Some (n, cs).

Fixpoint lit (w : string) (k : cont) (prev : option ascii) (s : string)
         (n : nat) (cs : list string) {struct w} : option result :=
  match w with
  | EmptyString => k prev s n cs
  | String c w' =>
      match s with
      | String d s' => if Ascii.eqb c d then lit w' k (Some d) s' (S n) cs else None
      | EmptyString => None
      end
  end.

(** Greedy repetition: take one more character first, fall back to the
    continuation. *)
Fixpoint greedy (p : ascii -> bool) (k : cont) (prev : option ascii) (s : string)
         (n : nat) (cs : list string) {struct s} : option result :=
  match s with
  | String d s' =>
      if p d then
        match greedy p k (Some d) s' (S n) cs with
        | Some r => Some r
        | None => k prev s n cs
        end
      else k prev s n cs
  | EmptyString => k prev s n cs
  end.

(** Lazy repetition: try the continuation first, take one more character
    when it fails. *)
Fixpoint lazy (p : ascii -> bool) (k : cont) (prev : option ascii) (s : string)
         (n : nat) (cs : list string) {struct s} : option result :=
  match k prev s n cs with
  | Some r => Some r
  | None =>
      match s with
      | String d s' => if p d then lazy p k (Some d) s' (S n) cs else None
      | EmptyString => None
      end
  end.

Fixpoint matcher (r : re) (k : cont) {struct r} : cont :=
  fun prev s n cs =>
  match r with
  | Str w => lit w k prev s n cs
  | Cls p =>
      match s with
      | String d s' => if p d then k (Some d) s' (S n) cs else None
      | EmptyString => None
      end
  | Star p => greedy p k prev s n cs
  | StarLazy p => lazy p k prev s n cs
  | Plus p =>
      match s with
      | String d s' => if p d then greedy p k (Some d) s' (S n) cs else None
      | EmptyString => None
      end
  | Bol =>
      match prev with
      | None => k prev s n cs
      | Some c => if line_terminator c then k prev s n cs else None
      end
  | Eol =>
      match s with
      | EmptyString => k prev s n cs
      | String d _ => if line_terminator d then k prev s n cs else None
      end
  | Seq a b => matcher a (matcher b k) prev s n cs
  | Group a =>
      matcher a (fun prev' s' n' cs' =>
                   k prev' s' n' (cs' ++ [substring 0 (n' - n) s])%list)
              prev s n cs
  end.

(** One match attempt at a position. *)
Definition match_at (r : re) (prev : option ascii) (s : string) : option result :=
  matcher r accept prev s 0 [].

(** Replacement strings: text and [$i] references. *)
Inductive piece : Type :=
| Text (w : string)
| Ref (i : nat).

Fixpoint expand (tmpl : list piece) (cs : list string) : string :=
  match tmpl with
  | [] => EmptyString
  | Text w :: tmpl' => w ++ expand tmpl' cs
  | Ref i :: tmpl' => nth (i - 1) cs EmptyString ++ expand tmpl' cs
  end.

(** [s.replace(/r/g, tmpl)]: scan left to right; at a match emit the
    expansion and resume after it (one character further after an empty
    match); elsewhere copy the character.  [skip] counts the characters of
    the current match still to be dropped. *)
Fixpoint replace_from (r : re) (tmpl : list piece) (prev : option ascii)
         (s : string) (skip : nat) {struct s} : string :=
  match skip with
  | S skip' =>
      match s with
      | String c s' => replace_from r tmpl (Some c) s' skip'
      | EmptyString => EmptyString
      end
  | O =>
      match match_at r prev s with
      | Some (len, cs) =>
          expand tmpl cs ++
          match s with
          | String c s' =>
              match len with
              | O => String c (replace_from r tmpl (Some c) s' 0)
              | S len' => replace_from r tmpl (Some c) s' len'
              end
          | EmptyString => EmptyString
          end
      | None =>
          match s with
          | String c s' => String c (replace_from r tmpl (Some c) s' 0)
          | EmptyString => EmptyString
          end
      end
  end.

Definition replace (r : re) (tmpl : list piece) (s : string) : string :=
  replace_from r tmpl None s 0.

(** [s.includes(w)] *)
Fixpoint includes (w s : string) : bool :=
  prefix w s ||
  match s with
  | String _ s' => includes w s'
  | EmptyString => false
  end.

End RegExp.

(** ** dashboard.js: formatMarkdown (lines 637-682) *)

Module Markdown.
Import RegExp.
Local Open Scope string_scope.
Local Open Scope re_scope.

Definition dq : string := String (ascii_of_nat 34) EmptyString.
Definition LF : string := String (ascii_of_nat 10) EmptyString.

(** [/^# (.*$)/gm] ... [/^##### (.*$)/gm] *)
Definition header (hashes : string) : re :=
  Bol +++ Str (hashes ++ " ") +++ Group (Star dot +++ Eol).

Definition wrap (tag : string) : list piece :=
  [Text ("<" ++ tag ++ ">"); Ref 1; Text ("</" ++ tag ++ ">")].

(** [/\*\*(.*?)\*\*/g], [/\*(.*?)\*/g], [/__(.*?)__/g], [/_(.*?)_/g] *)
Definition delimited (d : string) : re :=
  Str d +++ Group (StarLazy dot) +++ Str d.

(** [/^\s*\d+\.\s+(.*$)/gm] *)
Definition ordered_item : re :=
  Bol +++ Star space +++ Plus digit +++ Str "." +++ Plus space
      +++ Group (Star dot +++ Eol).

(** [/^\s*[\-\*]\s+(.*$)/gm] *)
Definition bullet_item : re :=
  Bol +++ Star space +++ Cls bullet +++ Plus space
      +++ Group (Star dot +++ Eol).

(** [/\[([^\]]+)\]\(([^)]+)\)/g] *)
Definition link : re :=
  Str "[" +++ Group (Plus (other_than "]")) +++ Str "](" +++
  Group (Plus (other_than ")")) +++ Str ")".

(** ['<a href="$2" target="_blank">$1</a>'] *)
Definition anchor : list piece :=
  [Text ("<a href=" ++ dq); Ref 2;
   Text (dq ++ " target=" ++ dq ++ "_blank" ++ dq ++ ">"); Ref 1; Text "</a>"].

(** [/`([^`]+)`/g] *)
Definition code : re :=
  Str "`" +++ Group (Plus (other_than "`")) +++ Str "`".

(** [/^\> (.*$)/gm] *)
Definition blockquote : re :=
  Bol +++ Str "> " +++ Group (Star dot +++ Eol).

(** [/\n\s*\n/g] and [/\n/g] *)
Definition blank_line : re := Str LF +++ Star space +++ Str LF.
Definition newline : re := Str LF.

(** [/<p>(\s*<li>)/g], and [</li>], [\s*] in a group followed by [</p>] *)
Definition list_open : re := Str "<p>" +++ Group (Star space +++ Str "<li>").
Definition list_close : re := Group (Str "</li>" +++ Star space) +++ Str "</p>".

(** The chain of replacements building [html] before it is wrapped: the
    five header substitutions first, ... *)
Definition headers (text : string) : string :=
  let html := replace (header "#") (wrap "h1") text in
  let html := replace (header "##") (wrap "h2") html in
  let html := replace (header "###") (wrap "h3") html in
  let html := replace (header "####") (wrap "h4") html in
  replace (header "#####") (wrap "h5") html.

(** ... then emphasis, lists, links, code, blockquotes and line breaks. *)
Definition substitutions (text : string) : string :=
  let html := headers text in
  let html := replace (delimited "**") (wrap "strong") html in
  let html := replace (delimited "*") (wrap "em") html in
  let html := replace (delimited "__") (wrap "strong") html in
  let html := replace (delimited "_") (wrap "em") html in
  let html := replace ordered_item (wrap "li") html in
  let html := replace bullet_item (wrap "li") html in
  let html := replace link anchor html in
  let html := replace code (wrap "code") html in
  let html := replace blockquote (wrap "blockquote") html in
  let html := replace blank_line [Text "</p><p>"] html in
  replace newline [Text "<br>"] html.

(** The post-pass: "Fix list items (wrap in ul)". *)
Definition fix_lists (html : string) : string :=
  if includes "<li>" html
  then replace list_close [Ref 1; Text "</ul></p>"]
         (replace list_open [Text "<p><ul>"; Ref 1] html)
  else html.

Definition formatMarkdown (text : string) : string :=
  match text with
  | EmptyString => EmptyString           (* [if (!text) return ''] *)
  | _ => fix_lists ("<p>" ++ substitutions text ++ "</p>")
  end.

End Markdown.

(** * The vocabulary of the specification *)

Module Spec.
Import JS Dashboard RegExp Markdown.

(** An array "contains no NaN". *)
Definition no_nan (values : list float) : Prop :=
  Forall (fun v => is_nan v = false) values.

(** [m] is a least (greatest) element of [values] in the order of
    binary64 numbers. *)
Definition is_minimum (m : float) (values : list float) : Prop :=
  In m values /\ Forall (fun y => (m <=? y) = true) values.

Definition is_maximum (m : float) (values : list float) : Prop :=
  In m values /\ Forall (fun y => (y <=? m) = true) values.

(** The specification's "valid original forecast values": the forecast
    fields of the input that are not NaN and strictly positive. *)
Definition valid_original (v : value) : bool :=
  negb (isNaN v) && (0 <? ToNumber v).

Definition valid_originals (prediction : Prediction.t) : list float :=
  map ToNumber
      (filter valid_original
              (map ForecastPoint.forecast (Prediction.forecast prediction))).

(** The arithmetic mean of binary64 numbers: their sum, accumulated from
    the left starting at 0, divided by their count. *)
Definition arithmetic_mean (values : list float) : float :=
  fold_left add values 0 / of_length (List.length values).

(** A division that refuses a zero divisor. *)
Definition checked_div (a b : float) : option float :=
  if is_zero b then None else Some (a / b).

(** [percentChange] with its division checked. *)
Definition percentChange_checked (prediction : Prediction.t) : option float :=
  if 0 <? Prediction.last_price prediction
  then option_map (fun q => q * 100)
         (checked_div (avgForecast prediction - Prediction.last_price prediction)
                      (Prediction.last_price prediction))
  else Some 0.

(** "Formatted to two decimal places": the string ends with a point and
    two digits. *)
Fixpoint two_decimals (s : string) : bool :=
  match s with
  | EmptyString => false
  | String c s' =>
      (Ascii.eqb c "." &&
       match s' with
       | String d1 (String d2 EmptyString) => digit d1 && digit d2
       | _ => false
       end) || two_decimals s'
  end.

(** [x] is finite and its magnitude is below [10^21]. *)
Definition fixed_notation (x : float) : bool :=
  match Prim2SF x with
  | S754_zero _ => true
  | S754_finite _ m e => negb (at_least_1e21 m e)
  | _ => false
  end.

(** The point of the specification's example: forecast 110, both
    confidence bounds NaN. *)
Definition point_110 : ForecastPoint.t :=
  ForecastPoint.mk 0 (number 110) (number nan) (number nan).

(** A point with a valid lower bound 5 whose forecast and upper bound are
    NaN. *)
Definition point_lower_only : ForecastPoint.t :=
  ForecastPoint.mk 0 (number nan) (number 5) (number nan).

(** No character of [s] satisfies [bad]. *)
Fixpoint avoids (bad : ascii -> bool) (s : string) : bool :=
  match s with
  | EmptyString => true
  | String c s' => negb (bad c) && avoids bad s'
  end.

(** Characters that some substitution of [formatMarkdown] reacts to inside
    a line: line terminators and the characters that open emphasis, a link,
    inline code or a tag. *)
Definition markup (c : ascii) : bool :=
  line_terminator c ||
  Ascii.eqb "*" c || Ascii.eqb "_" c || Ascii.eqb "[" c || Ascii.eqb "`" c ||
  Ascii.eqb "<" c.

Definition plain (t : string) : bool := avoids markup t.

(** [n] hash characters. *)
Fixpoint hashes (n : nat) : string :=
  match n with
  | O => EmptyString
  | S n' => String "#" (hashes n')
  end.

(** The tag of a header of level [n]: h1 ... h5. *)
Definition h (n : nat) : string := append "h" (digits (Z.of_nat n)).

(** The text whose lines are [lines], separated by LF. *)
Fixpoint join_lines (lines : list string) : string :=
  match lines with
  | [] => EmptyString
  | line :: rest =>
      match rest with
      | [] => line
      | _ :: _ => append line (append LF (join_lines rest))
      end
  end.

(** [strip_prefix w s] is what follows [w] in [s], when [s] starts with [w]. *)
Fixpoint strip_prefix (w s : string) : option string :=
  match w with
  | EmptyString => Some s
  | String c w' =>
      match s with
      | String d s' => if Ascii.eqb c d then strip_prefix w' s' else None
      | EmptyString => None
      end
  end.

(** What a substitution of the shape [^w(.*$)] does to one line. *)
Definition rewrite_line (w : string) (tmpl : list piece) (line : string) : string :=
  match strip_prefix w line with
  | Some rest => expand tmpl [rest]
  | None => line
  end.

(** The header substitution of level [n] on one line, and the five of them
    in the order of the chain. *)
Definition mark_header (n : nat) (line : string) : string :=
  rewrite_line (append (hashes n) " ") (wrap (h n)) line.

Definition mark_headers (line : string) : string :=
  mark_header 5 (mark_header 4 (mark_header 3 (mark_header 2 (mark_header 1 line)))).

End Spec.

(** * Auxiliary definitions *)

(** [SFcompare] orders the numbers that are not NaN lexicographically by
    sign class, exponent and mantissa; [key1], [key2], [key3] are the
    three components. *)
Module Order.
Local Open Scope Z_scope.

Definition key1 (x : spec_float) : Z :=
  match x with
  | S754_infinity true => -2
  | S754_finite true _ _ => -1
  | S754_finite false _ _ => 1
  | S754_infinity false => 2
  | _ => 0
  end.

Definition key2 (x : spec_float) : Z :=
  match x with
  | S754_finite true _ e => - e
  | S754_finite false _ e => e
  | _ => 0
  end.

Definition key3 (x : spec_float) : Z :=
  match x with
  | S754_finite true m _ => Zneg m
  | S754_finite false m _ => Zpos m
  | _ => 0
  end.

Definition key_lt (x y : spec_float) : Prop :=
  key1 x < key1 y \/
  (key1 x = key1 y /\ (key2 x < key2 y \/ (key2 x = key2 y /\ key3 x < key3 y))).

Definition key_le (x y : spec_float) : Prop :=
  key1 x < key1 y \/
  (key1 x = key1 y /\ (key2 x < key2 y \/ (key2 x = key2 y /\ key3 x <= key3 y))).

End Order.

(** Positions of a scan through a subject. *)
Module Scan.
Import RegExp Spec.

(** The character before the position reached after [s]. *)
Fixpoint last_char (prev : option ascii) (s : string) : option ascii :=
  match s with
  | EmptyString => prev
  | String c s' => last_char (Some c) s'
  end.

Definition all_digits (s : string) : bool := avoids (fun c => negb (digit c)) s.

(** What follows a line: nothing, or a line terminator and more text. *)
Definition line_end (tail : string) : Prop :=
  match tail with
  | EmptyString => True
  | String c _ => line_terminator c = true
  end.

(** What precedes a line: nothing, or a line terminator. *)
Definition line_start (prev : option ascii) : Prop :=
  match prev with
  | None => True
  | Some c => line_terminator c = true
  end.

(** The pattern [^w(.*$)] under flags g and m. *)
Definition line_re (w : string) : re :=
  Seq Bol (Seq (Str w) (Group (Seq (Star dot) Eol))).

End Scan.

(** ** dashboard.js: the query of the four data requests
    (lines 167-168, 261-262, 292-293, 327-328) *)

Module Query.
Import Spec.
Local Open Scope string_scope.

(** [parts.join(sep)] on an array of strings *)
Fixpoint join (sep : string) (parts : list string) : string :=
  match parts with
  | [] => ""
  | part :: rest =>
      match rest with
      | [] => part
      | _ :: _ => part ++ sep ++ join sep rest
      end
  end.

(** [currentSymbols.map(s => `symbols=${s}`).join('&')] *)
Definition symbolsParam (currentSymbols : list string) : string :=
  join "&" (map (fun s => "symbols=" ++ s) currentSymbols).

(** [`/api/market-data?${symbolsParam}&time_horizon=${currentTimeHorizon}`],
    and the same for the other three paths. *)
Definition url (path : string) (currentSymbols : list string)
           (currentTimeHorizon : string) : string :=
  path ++ "?" ++ symbolsParam currentSymbols ++ "&time_horizon=" ++ currentTimeHorizon.

(** What follows the first symbol in the query. *)
Definition others (rest : list string) : string :=
  match rest with
  | [] => ""
  | _ :: _ => "&" ++ symbolsParam rest
  end.

(** What follows a value in a query: nothing, or a separator. *)
Definition separated (tail : string) : Prop :=
  match tail with
  | EmptyString => True
  | String c _ => c = "&"%char
  end.

End Query.

(** ** Shapes of text, for statements about formatMarkdown *)

Module Shape.
Import RegExp Markdown Spec Query.
Local Open Scope string_scope.




(** Characters that can open a block construct at a line start: a header,
    a list item (after optional white space) or a blockquote. *)
Definition starter (c : ascii) : bool :=
  Ascii.eqb "#" c || space c || digit c || bullet c || Ascii.eqb ">" c.

(** A line of prose: not empty, free of markup characters, and not
    starting like a block construct. *)
Definition prose (line : string) : bool :=
  match line with
  | EmptyString => false
  | String c _ => negb (starter c) && plain line
  end.

(** Runs of prose lines separated by single empty lines. *)
Inductive Calm : list string -> Prop :=
| calm_last (line : string) :
    prose line = true -> Calm [line]
| calm_break (line next : string) (rest : list string) :
    prose line = true -> Calm (next :: rest) -> Calm (line :: next :: rest)
| calm_paragraph (line : string) (rest : list string) :
    prose line = true -> Calm rest -> Calm (line :: EmptyString :: rest).

(** The HTML of such lines: [<br>] between the lines of a run, a paragraph
    boundary in place of an empty line. *)
Fixpoint render (lines : list string) : string :=
  match lines with
  | [] => ""
  | line :: rest =>
      match rest with
      | [] => line
      | next :: rest' =>
          match next with
          | EmptyString => line ++ "</p><p>" ++ render rest'
          | String _ _ => line ++ "<br>" ++ render rest
          end
      end
  end.

(** The same with the line feeds inside a run still in place. *)
Fixpoint paragraphs (lines : list string) : string :=
  match lines with
  | [] => ""
  | line :: rest =>
      match rest with
      | [] => line
      | next :: rest' =>
          match next with
          | EmptyString => line ++ "</p><p>" ++ paragraphs rest'
          | String _ _ => line ++ LF ++ paragraphs rest
          end
      end
  end.

(** Where a line of calm text starts: before a prose character, or before
    the line feed of an empty line that a prose character follows. *)
Definition quiet_start (s : string) : Prop :=
  match s with
  | EmptyString => False
  | String c s' =>
      starter c = false \/
      (c = "010"%char /\
       match s' with
       | String d _ => starter d = false
       | EmptyString => False
       end)
  end.

(** A text that does not start with white space. *)
Definition flush (x : string) : bool :=
  match x with
  | String c _ => negb (space c)
  | EmptyString => true
  end.

(** Characters that some substitution reacts to inside a line, tags
    apart. *)
Definition reactive (c : ascii) : bool :=
  line_terminator c ||
  Ascii.eqb "*" c || Ascii.eqb "_" c || Ascii.eqb "[" c || Ascii.eqb "`" c.

(** A line that no substitution of [formatMarkdown] reacts to: not empty,
    not starting like a block construct, and free of reactive
    characters. *)
Definition inert (line : string) : bool :=
  match line with
  | EmptyString => false
  | String c _ => negb (starter c) && avoids reactive line
  end.

(** The text of a list item: not empty, plain, and not starting with white
    space. *)
Definition item (x : string) : bool :=
  match x with
  | EmptyString => false
  | String c _ => negb (space c) && plain x
  end.

(** A bullet line and the element it becomes. *)
Definition dash (x : string) : string := "- " ++ x.
Definition li (x : string) : string := "<li>" ++ x ++ "</li>".

(** What follows an element of a list in the HTML. *)
Definition following (rest : list string) : string :=
  match rest with
  | [] => ""
  | _ :: _ => "<br>" ++ join "<br>" (map li rest)
  end.

End Shape.

(** * Lemmas *)

(** ** Binary64 numbers, from [FloatAxioms] *)

Module FloatFacts.
Import Order.
Local Open Scope Z_scope.

Lemma Prim2SF_not_nan (x : float) : is_nan x = false -> Prim2SF x <> S754_nan.
Proof.
  intro H. unfold Prim2SF. rewrite H.
  destruct (is_zero x); [discriminate|].
  destruct (is_infinity x); [discriminate|].
  destruct (FloatOps.Z.frexp x) as [r ex].
  destruct (shr_fexp _ _ _ _ _) as [mrs e'].
  destruct (shr_m mrs); discriminate.
Qed.

Lemma SFcompare_refl (x : spec_float) : x <> S754_nan -> SFcompare x x = Some Eq.
Proof.
  destruct x as [s|s| |s m e]; intro H; try congruence; simpl.
  - reflexivity.
  - now destruct s.
  - rewrite Z.compare_refl.
    assert (Hm : Pos.compare_cont Eq m m = Eq) by apply Pos.compare_refl.
    rewrite Hm. now destruct s.
Qed.

Lemma is_nan_false_iff (x : float) : is_nan x = false <-> Prim2SF x <> S754_nan.
Proof.
  split; [apply Prim2SF_not_nan|].
  intro H. unfold is_nan. rewrite FloatAxioms.eqb_spec. unfold SFeqb.
  now rewrite (SFcompare_refl _ H).
Qed.

(** Rounding never produces NaN from a non-negative mantissa. *)
Lemma shr_1_nonneg (mrs : shr_record) : 0 <= shr_m mrs -> 0 <= shr_m (shr_1 mrs).
Proof.
  destruct mrs as [m r s]; simpl.
  destruct m as [|[q|q|]|[q|q|]]; simpl; lia.
Qed.

Lemma iter_shr_1_nonneg (p : positive) :
  forall mrs, 0 <= shr_m mrs -> 0 <= shr_m (SpecFloat.iter_pos shr_1 p mrs).
Proof.
  induction p as [p IH|p IH|]; simpl; intros mrs H.
  - apply IH, IH, shr_1_nonneg, H.
  - apply IH, IH, H.
  - apply shr_1_nonneg, H.
Qed.

Lemma shr_fexp_nonneg (m e : Z) (l : location) :
  0 <= m -> 0 <= shr_m (fst (shr_fexp prec emax m e l)).
Proof.
  intro H. unfold shr_fexp, shr.
  assert (H0 : 0 <= shr_m (shr_record_of_loc m l)).
  { destruct l as [|[ | | ]]; exact H. }
  destruct (fexp prec emax (Zdigits2 m + e) - e); simpl; auto.
  now apply iter_shr_1_nonneg.
Qed.

Lemma round_nearest_even_nonneg (m : Z) (l : location) :
  0 <= m -> 0 <= round_nearest_even m l.
Proof.
  intro H. destruct l as [|[ | | ]]; simpl; try lia.
  destruct (Z.even m); lia.
Qed.

Lemma binary_round_aux_not_nan (sx : bool) (mx ex : Z) (lx : location) :
  0 <= mx -> binary_round_aux prec emax sx mx ex lx <> S754_nan.
Proof.
  intro H. unfold binary_round_aux.
  pose proof (shr_fexp_nonneg mx ex lx H) as H1.
  destruct (shr_fexp prec emax mx ex lx) as [mrs' e']. simpl in H1.
  pose proof (shr_fexp_nonneg _ e' loc_Exact
                (round_nearest_even_nonneg _ (loc_of_shr_record mrs') H1)) as H2.
  destruct (shr_fexp prec emax _ e' loc_Exact) as [mrs'' e'']. simpl in H2.
  destruct (shr_m mrs''); try lia; try discriminate.
  destruct (e'' <=? emax - prec); discriminate.
Qed.

Lemma SFmul_finite_not_nan (x : spec_float) (s : bool) (m : positive) (e : Z) :
  x <> S754_nan -> SF64mul x (S754_finite s m e) <> S754_nan.
Proof.
  intro H. destruct x as [sx|sx| |sx mx ex]; try congruence; simpl; try discriminate.
  apply binary_round_aux_not_nan. lia.
Qed.

(** A number that is not NaN stays so when scaled by a finite non-zero
    constant. *)
Lemma mul_finite_not_nan (x c : float) (s : bool) (m : positive) (e : Z) :
  Prim2SF c = S754_finite s m e ->
  is_nan x = false -> is_nan (x * c)%float = false.
Proof.
  intros Hc Hx. apply is_nan_false_iff. rewrite mul_spec, Hc.
  apply SFmul_finite_not_nan. now apply is_nan_false_iff.
Qed.

(** Case analysis on the comparisons inside [SFcompare]. *)
Ltac compare_cases :=
  repeat match goal with
         | |- context [Z.compare ?a ?b] => destruct (Z.compare_spec a b)
         | |- context [PosDef.Pos.compare_cont Eq ?a ?b] =>
             change (PosDef.Pos.compare_cont Eq a b) with (Pos.compare a b);
             destruct (Pos.compare_spec a b)
         end.

Lemma SFltb_key (x y : spec_float) :
  SFltb x y = true <-> (x <> S754_nan /\ y <> S754_nan /\ key_lt x y).
Proof.
  unfold SFltb, key_lt.
  destruct x as [sx|sx| |sx mx ex], y as [sy|sy| |sy my ey];
    try destruct sx; try destruct sy; cbn; compare_cases; cbn;
    (split; [intro Hc; try discriminate Hc; repeat split; try discriminate; lia
            |intros (Hx & Hy & Hk); try congruence; try reflexivity; exfalso; lia]).
Qed.

Lemma SFleb_key (x y : spec_float) :
  SFleb x y = true <-> (x <> S754_nan /\ y <> S754_nan /\ key_le x y).
Proof.
  unfold SFleb, key_le.
  destruct x as [sx|sx| |sx mx ex], y as [sy|sy| |sy my ey];
    try destruct sx; try destruct sy; cbn; compare_cases; cbn;
    (split; [intro Hc; try discriminate Hc; repeat split; try discriminate; lia
            |intros (Hx & Hy & Hk); try congruence; try reflexivity; exfalso; lia]).
Qed.

Lemma key_lt_dec_aux (x y : spec_float) : key_lt x y \/ key_le y x.
Proof. unfold key_lt, key_le. lia. Qed.

Lemma ltb_key (x y : float) :
  (x <? y)%float = true <->
  (is_nan x = false /\ is_nan y = false /\ key_lt (Prim2SF x) (Prim2SF y)).
Proof. rewrite ltb_spec, SFltb_key, !is_nan_false_iff. tauto. Qed.

Lemma leb_key (x y : float) :
  (x <=? y)%float = true <->
  (is_nan x = false /\ is_nan y = false /\ key_le (Prim2SF x) (Prim2SF y)).
Proof. rewrite leb_spec, SFleb_key, !is_nan_false_iff. tauto. Qed.

Lemma leb_refl (x : float) : is_nan x = false -> (x <=? x)%float = true.
Proof. intro H. apply leb_key. unfold key_le. repeat split; auto; lia. Qed.

Lemma leb_trans (x y z : float) :
  (x <=? y)%float = true -> (y <=? z)%float = true -> (x <=? z)%float = true.
Proof.
  rewrite !leb_key. unfold key_le.
  intros (Hx & Hy & H1) (_ & Hz & H2). repeat split; auto; lia.
Qed.

Lemma ltb_leb (x y : float) : (x <? y)%float = true -> (x <=? y)%float = true.
Proof.
  rewrite ltb_key, leb_key. unfold key_lt, key_le.
  intros (Hx & Hy & H). repeat split; auto; lia.
Qed.

Lemma not_ltb_leb (x y : float) :
  is_nan x = false -> is_nan y = false ->
  (x <? y)%float = false -> (y <=? x)%float = true.
Proof.
  intros Hx Hy H. apply leb_key. repeat split; auto.
  destruct (key_lt_dec_aux (Prim2SF x) (Prim2SF y)) as [Hlt|Hge]; [|exact Hge].
  assert ((x <? y)%float = true) by (apply ltb_key; auto). congruence.
Qed.

Lemma leb_not_ltb (x y : float) : (x <=? y)%float = true -> (y <? x)%float = false.
Proof.
  intro H. destruct (y <? x)%float eqn:E; [|reflexivity].
  apply leb_key in H. apply ltb_key in E. unfold key_le, key_lt in *.
  exfalso. destruct H as (_ & _ & H), E as (_ & _ & E). lia.
Qed.

Lemma positive_not_zero (x : float) : (0 <? x)%float = true -> is_zero x = false.
Proof.
  unfold is_zero. rewrite ltb_spec, FloatAxioms.eqb_spec.
  change (Prim2SF 0) with (S754_zero false). change (Prim2SF PrimFloat.zero) with (S754_zero false).
  destruct (Prim2SF x) as [s|s| |s m e]; try destruct s; cbn; congruence.
Qed.

Lemma classify_NZero (x : float) :
  classify x = FloatClass.NZero -> Prim2SF x = S754_zero true.
Proof.
  rewrite classify_spec. unfold SF64classify, SFclassify.
  destruct (Prim2SF x) as [s|s| |s m e]; try destruct s; try discriminate; auto;
    destruct (Zpos (digits2_pos m) =? prec); discriminate.
Qed.

Lemma classify_PZero (x : float) :
  classify x = FloatClass.PZero -> Prim2SF x = S754_zero false.
Proof.
  rewrite classify_spec. unfold SF64classify, SFclassify.
  destruct (Prim2SF x) as [s|s| |s m e]; try destruct s; try discriminate; auto;
    destruct (Zpos (digits2_pos m) =? prec); discriminate.
Qed.

Lemma zeros_leb (x y : float) (sx sy : bool) :
  Prim2SF x = S754_zero sx -> Prim2SF y = S754_zero sy -> (x <=? y)%float = true.
Proof.
  intros Hx Hy. rewrite leb_spec, Hx, Hy. reflexivity.
Qed.

Lemma infinity_leb (x : float) : (infinity <=? x)%float = true -> x = infinity.
Proof.
  intro H. apply leb_key in H. destruct H as (_ & _ & H).
  apply Prim2SF_inj. change (Prim2SF infinity) with (S754_infinity false) in *.
  unfold key_le in H.
  destruct (Prim2SF x) as [s|s| |s m e]; try destruct s; cbn in H; try lia.
  reflexivity.
Qed.

Lemma leb_neg_infinity (x : float) : (x <=? neg_infinity)%float = true -> x = neg_infinity.
Proof.
  intro H. apply leb_key in H. destruct H as (_ & _ & H).
  apply Prim2SF_inj. change (Prim2SF neg_infinity) with (S754_infinity true) in *.
  unfold key_le in H.
  destruct (Prim2SF x) as [s|s| |s m e]; try destruct s; cbn in H; try lia.
  reflexivity.
Qed.

End FloatFacts.

(** ** The forecast sanitizer *)

Module SanitizerFacts.
Import JS Dashboard Spec FloatFacts.

Lemma forecastValue_not_nan (point : ForecastPoint.t) :
  is_nan (forecastValue point) = false.
Proof.
  unfold forecastValue, isNaN.
  destruct (is_nan (ToNumber (ForecastPoint.forecast point))) eqn:E;
    [reflexivity | exact E].
Qed.

Lemma lowerValue_not_nan (point : ForecastPoint.t) :
  is_nan (lowerValue point) = false.
Proof.
  unfold lowerValue, isNaN.
  destruct (is_nan (ToNumber (ForecastPoint.lower_ci point))) eqn:El; [|exact El].
  destruct (is_nan (ToNumber (ForecastPoint.forecast point))) eqn:Ef; [reflexivity|].
  eapply mul_finite_not_nan; [vm_compute; reflexivity | exact Ef].
Qed.

Lemma upperValue_not_nan (point : ForecastPoint.t) :
  is_nan (upperValue point) = false.
Proof.
  unfold upperValue, isNaN.
  destruct (is_nan (ToNumber (ForecastPoint.upper_ci point))) eqn:Eu; [|exact Eu].
  destruct (is_nan (ToNumber (ForecastPoint.forecast point))) eqn:Ef; [reflexivity|].
  eapply mul_finite_not_nan; [vm_compute; reflexivity | exact Ef].
Qed.

Lemma no_nan_map {A : Type} (f : A -> float) (l : list A) :
  (forall a, is_nan (f a) = false) -> no_nan (map f l).
Proof.
  intro H. unfold no_nan. induction l as [|a l IH]; simpl; constructor; auto.
Qed.

Lemma lowerCI_no_nan (p : Prediction.t) : no_nan (lowerCI p).
Proof. apply no_nan_map, lowerValue_not_nan. Qed.

Lemma upperCI_no_nan (p : Prediction.t) : no_nan (upperCI p).
Proof. apply no_nan_map, upperValue_not_nan. Qed.

Lemma filter_no_nan (values : list float) :
  no_nan values -> filter (fun val => negb (is_nan val)) values = values.
Proof.
  induction 1 as [|v l Hv _ IH]; simpl; [reflexivity|].
  now rewrite Hv, IH.
Qed.

Lemma valid_forecastValue (point : ForecastPoint.t) :
  negb (is_nan (forecastValue point)) && (0 <? forecastValue point) =
    valid_original (ForecastPoint.forecast point) /\
  (isNaN (ForecastPoint.forecast point) = false ->
   forecastValue point = ToNumber (ForecastPoint.forecast point)).
Proof.
  unfold valid_original, forecastValue.
  destruct (isNaN (ForecastPoint.forecast point)) eqn:E.
  - split; [reflexivity | discriminate].
  - unfold isNaN in E. rewrite E. split; reflexivity.
Qed.

Lemma validValues_originals (prediction : Prediction.t) :
  validValues prediction = valid_originals prediction.
Proof.
  unfold validValues, valid_originals, forecastValues.
  induction (Prediction.forecast prediction) as [|point points IH]; [reflexivity|].
  cbn [map filter]. rewrite IH.
  destruct (valid_forecastValue point) as [-> Hv].
  destruct (valid_original (ForecastPoint.forecast point)) eqn:E; [|reflexivity].
  cbn [map]. rewrite Hv; [reflexivity|].
  unfold valid_original in E. now destruct (isNaN (ForecastPoint.forecast point)).
Qed.

End SanitizerFacts.

(** ** Math.min, Math.max and the range display *)

Module RangeFacts.
Import JS Dashboard Spec FloatFacts.

Lemma min_step_cases (lowest n : float) :
  is_nan lowest = false -> is_nan n = false ->
  (min_step lowest n = n /\ (n <=? lowest) = true) \/
  (min_step lowest n = lowest /\ (lowest <=? n) = true).
Proof.
  intros Hl Hn.
  assert (G : ((if n <? lowest then n else lowest) = n /\ (n <=? lowest) = true) \/
              ((if n <? lowest then n else lowest) = lowest /\ (lowest <=? n) = true)).
  { destruct (n <? lowest) eqn:E.
    - left. split; [reflexivity | now apply ltb_leb].
    - right. split; [reflexivity | now apply not_ltb_leb]. }
  unfold min_step.
  destruct (classify n) eqn:Cn; try exact G;
    destruct (classify lowest) eqn:Cl; try exact G.
  left. split; [reflexivity|].
  eapply zeros_leb; [apply classify_NZero, Cn | apply classify_PZero, Cl].
Qed.

Lemma max_step_cases (highest n : float) :
  is_nan highest = false -> is_nan n = false ->
  (max_step highest n = n /\ (highest <=? n) = true) \/
  (max_step highest n = highest /\ (n <=? highest) = true).
Proof.
  intros Hh Hn.
  assert (G : ((if highest <? n then n else highest) = n /\ (highest <=? n) = true) \/
              ((if highest <? n then n else highest) = highest /\ (n <=? highest) = true)).
  { destruct (highest <? n) eqn:E.
    - left. split; [reflexivity | now apply ltb_leb].
    - right. split; [reflexivity | now apply not_ltb_leb]. }
  unfold max_step.
  destruct (classify n) eqn:Cn; try exact G;
    destruct (classify highest) eqn:Ch; try exact G.
  left. split; [reflexivity|].
  eapply zeros_leb; [apply classify_NZero, Ch | apply classify_PZero, Cn].
Qed.

Lemma Math_min_from_spec (values : list float) :
  forall lowest, is_nan lowest = false -> no_nan values ->
  let r := Math_min_from lowest values in
  (r = lowest \/ In r values) /\
  (r <=? lowest) = true /\
  Forall (fun y => (r <=? y) = true) values.
Proof.
  induction values as [|n rest IH]; intros lowest Hl Hv; cbn.
  - repeat split; auto using leb_refl.
  - inversion Hv as [|? ? Hn Hrest]; subst. rewrite Hn.
    destruct (min_step_cases lowest n Hl Hn) as [[E Hle]|[E Hle]];
      rewrite E;
      [destruct (IH n Hn Hrest) as (Hin & Hr & Hall)
      |destruct (IH lowest Hl Hrest) as (Hin & Hr & Hall)];
      cbv zeta in *.
    + repeat split.
      * destruct Hin as [->|Hin]; auto.
      * eapply leb_trans; eauto.
      * constructor; auto.
    + repeat split.
      * destruct Hin as [->|Hin]; auto.
      * exact Hr.
      * constructor; auto. eapply leb_trans; eauto.
Qed.

Lemma Math_max_from_spec (values : list float) :
  forall highest, is_nan highest = false -> no_nan values ->
  let r := Math_max_from highest values in
  (r = highest \/ In r values) /\
  (highest <=? r) = true /\
  Forall (fun y => (y <=? r) = true) values.
Proof.
  induction values as [|n rest IH]; intros highest Hh Hv; cbn.
  - repeat split; auto using leb_refl.
  - inversion Hv as [|? ? Hn Hrest]; subst. rewrite Hn.
    destruct (max_step_cases highest n Hh Hn) as [[E Hle]|[E Hle]];
      rewrite E;
      [destruct (IH n Hn Hrest) as (Hin & Hr & Hall)
      |destruct (IH highest Hh Hrest) as (Hin & Hr & Hall)];
      cbv zeta in *.
    + repeat split.
      * destruct Hin as [->|Hin]; auto.
      * eapply leb_trans; eauto.
      * constructor; auto.
    + repeat split.
      * destruct Hin as [->|Hin]; auto.
      * exact Hr.
      * constructor; auto. eapply leb_trans; eauto.
Qed.

(** On a non-empty array without NaN, [Math.min] is a least element. *)
Lemma Math_min_is_minimum (values : list float) :
  values <> [] -> no_nan values -> is_minimum (Math_min values) values.
Proof.
  intros Hne Hv. unfold Math_min, is_minimum.
  destruct (Math_min_from_spec values infinity eq_refl Hv) as (Hin & _ & Hall).
  cbv zeta in *. split; [|exact Hall].
  destruct Hin as [E|Hin]; [|exact Hin].
  destruct values as [|y rest]; [congruence|].
  inversion Hall as [|? ? Hy _]; subst. rewrite E in Hy.
  apply infinity_leb in Hy. rewrite E, Hy. now left.
Qed.

(** On a non-empty array without NaN, [Math.max] is a greatest element. *)
Lemma Math_max_is_maximum (values : list float) :
  values <> [] -> no_nan values -> is_maximum (Math_max values) values.
Proof.
  intros Hne Hv. unfold Math_max, is_maximum.
  destruct (Math_max_from_spec values neg_infinity eq_refl Hv) as (Hin & _ & Hall).
  cbv zeta in *. split; [|exact Hall].
  destruct Hin as [E|Hin]; [|exact Hin].
  destruct values as [|y rest]; [congruence|].
  inversion Hall as [|? ? Hy _]; subst. rewrite E in Hy.
  apply leb_neg_infinity in Hy. rewrite E, Hy. now left.
Qed.

Lemma filter_is_no_nan (values : list float) :
  no_nan (filter (fun val => negb (is_nan val)) values).
Proof.
  unfold no_nan. induction values as [|v l IH]; cbn; [constructor|].
  destruct (is_nan v) eqn:E; cbn; [exact IH | constructor; auto].
Qed.

(** The two shapes of [getRangeDisplay]'s result. *)
Lemma getRangeDisplay_cases (lowerArray upperArray : list float) :
  let validLower := filter (fun val => negb (is_nan val)) lowerArray in
  let validUpper := filter (fun val => negb (is_nan val)) upperArray in
  ((validLower = [] \/ validUpper = []) /\
   getRangeDisplay lowerArray upperArray = "Range not available"%string) \/
  (validLower <> [] /\ validUpper <> [] /\
   getRangeDisplay lowerArray upperArray =
     ("$" ++ toFixed2 (Math_min validLower) ++ " - $" ++ toFixed2 (Math_max validUpper))%string).
Proof.
  cbv zeta. unfold getRangeDisplay.
  destruct (filter _ lowerArray) as [|a l]; [left; split; auto|].
  destruct (filter _ upperArray) as [|b u]; [left; split; auto|].
  right. repeat split; congruence.
Qed.

End RangeFacts.

(** ** Strings *)

Module StringFacts.
Import Spec Scan.
Local Open Scope nat_scope.
Local Open Scope string_scope.

Lemma avoids_app (bad : ascii -> bool) (a b : string) :
  avoids bad (a ++ b) = avoids bad a && avoids bad b.
Proof.
  induction a as [|c a IH]; cbn; [reflexivity|].
  now rewrite IH, andb_assoc.
Qed.

Lemma avoids_weaken (bad bad' : ascii -> bool) (s : string) :
  (forall c, bad' c = true -> bad c = true) ->
  avoids bad s = true -> avoids bad' s = true.
Proof.
  intro H. induction s as [|c s IH]; cbn; [reflexivity|].
  intro E. apply andb_true_iff in E. destruct E as [Ec Es].
  rewrite (IH Es), andb_true_r.
  destruct (bad' c) eqn:B; [|reflexivity].
  rewrite (H c B) in Ec. discriminate.
Qed.

Lemma append_empty_r (s : string) : s ++ "" = s.
Proof. induction s as [|c s IH]; cbn; [reflexivity | now rewrite IH]. Qed.

Lemma append_assoc (a b c : string) : a ++ (b ++ c) = (a ++ b) ++ c.
Proof. induction a as [|d a IH]; cbn; [reflexivity | now rewrite IH]. Qed.

Lemma length_app (a b : string) :
  String.length (a ++ b) = String.length a + String.length b.
Proof. induction a as [|c a IH]; cbn; auto. Qed.

Lemma substring_prefix (t s : string) : substring 0 (String.length t) (t ++ s) = t.
Proof.
  induction t as [|c t IH]; cbn; [now destruct s | now rewrite IH].
Qed.

End StringFacts.

(** ** toFixed(2) *)

Module FormatFacts.
Import JS Spec Scan StringFacts.
Local Open Scope nat_scope.
Local Open Scope string_scope.

Lemma two_decimals_app (a s : string) :
  two_decimals s = true -> two_decimals (a ++ s) = true.
Proof.
  intro H. induction a as [|c a IH]; [exact H|].
  cbn [append two_decimals]. rewrite IH. apply orb_true_r.
Qed.

Lemma all_digits_uint (d : Decimal.uint) : all_digits (NilEmpty.string_of_uint d) = true.
Proof. induction d; cbn; auto. Qed.

Lemma all_digits_digits (n : Z) : all_digits (digits n) = true.
Proof.
  unfold digits, NilZero.string_of_uint.
  destruct (N.to_uint (Z.to_N n)) eqn:E; try reflexivity;
    rewrite <- E; apply all_digits_uint.
Qed.

Lemma all_digits_zeros (k : nat) : all_digits (zeros k) = true.
Proof. induction k; cbn; auto. Qed.

Lemma length_zeros (k : nat) : String.length (zeros k) = k.
Proof. induction k; cbn; auto. Qed.

Lemma pad_left_spec (k : nat) (s : string) :
  all_digits s = true ->
  all_digits (pad_left k s) = true /\ k <= String.length (pad_left k s).
Proof.
  intro H. unfold pad_left, all_digits. rewrite avoids_app, length_app, length_zeros.
  split; [|lia]. fold (all_digits (zeros (k - String.length s))).
  now rewrite all_digits_zeros.
Qed.

Lemma last_two_digits (m : string) :
  all_digits m = true -> 2 <= String.length m ->
  exists d1 d2, substring (String.length m - 2) 2 m = String d1 (String d2 "") /\
                RegExp.digit d1 = true /\ RegExp.digit d2 = true.
Proof.
  induction m as [|c m IH]; cbn [String.length]; intros Hd Hl; [lia|].
  cbn in Hd. apply andb_true_iff in Hd. destruct Hd as [Hc Hm].
  rewrite negb_involutive in Hc.
  destruct m as [|d [|e m]].
  - cbn in Hl. lia.
  - cbn in Hm. rewrite andb_true_r, negb_involutive in Hm.
    exists c, d. cbn. auto.
  - destruct (IH Hm) as (d1 & d2 & E & H1 & H2); [cbn; lia|].
    exists d1, d2. repeat split; auto.
    cbn [String.length] in *. rewrite <- E.
    replace (S (S (S (String.length m))) - 2) with (S (S (S (String.length m)) - 2)) by lia.
    reflexivity.
Qed.

Lemma fixed2_two_decimals (n : Z) : two_decimals (fixed2 n) = true.
Proof.
  unfold fixed2. cbv zeta.
  destruct (pad_left_spec 3 (digits n) (all_digits_digits n)) as [Hd Hl].
  destruct (last_two_digits _ Hd) as (d1 & d2 & E & H1 & H2); [lia|].
  apply two_decimals_app. rewrite E. cbn. now rewrite H1, H2.
Qed.

(** A finite number of magnitude below [10^21] is printed by [toFixed(2)]
    with exactly two decimals. *)
Lemma toFixed2_two_decimals (x : float) :
  fixed_notation x = true -> two_decimals (toFixed2 x) = true.
Proof.
  unfold fixed_notation, toFixed2.
  destruct (Prim2SF x) as [s|s| |s m e]; try discriminate; [reflexivity|].
  intro H. apply negb_true_iff in H. rewrite H.
  apply two_decimals_app, fixed2_two_decimals.
Qed.

End FormatFacts.

(** ** Matching and replacing *)

Module RegExpFacts.
Import RegExp Spec Scan StringFacts.
Local Open Scope nat_scope.
Local Open Scope string_scope.

Lemma replace_from_miss (r : re) (tmpl : list piece) (prev : option ascii)
      (d : ascii) (s : string) :
  match_at r prev (String d s) = None ->
  replace_from r tmpl prev (String d s) 0 = String d (replace_from r tmpl (Some d) s 0).
Proof. intro H. cbn [replace_from]. now rewrite H. Qed.

Lemma replace_from_miss_end (r : re) (tmpl : list piece) (prev : option ascii) :
  match_at r prev "" = None -> replace_from r tmpl prev "" 0 = "".
Proof. intro H. cbn [replace_from]. now rewrite H. Qed.

(** A pattern starting with a literal character matches nowhere in a
    subject without that character. *)
Lemma match_at_first_absent (c : ascii) (w : string) (r : re)
      (prev : option ascii) (s : string) :
  match s with String d _ => Ascii.eqb c d = false | EmptyString => True end ->
  match_at (Seq (Str (String c w)) r) prev s = None.
Proof. destruct s as [|d s]; cbn; [reflexivity | now intros ->]. Qed.

Lemma replace_first_absent (c : ascii) (w : string) (r : re)
      (tmpl : list piece) (s : string) :
  avoids (Ascii.eqb c) s = true ->
  replace (Seq (Str (String c w)) r) tmpl s = s.
Proof.
  unfold replace. generalize (@None ascii).
  induction s as [|d s IH]; intros prev H.
  - apply replace_from_miss_end. now apply match_at_first_absent.
  - cbn in H. apply andb_true_iff in H. destruct H as [Hd Hs].
    apply negb_true_iff in Hd.
    rewrite replace_from_miss by now apply match_at_first_absent.
    now rewrite IH.
Qed.

Lemma match_at_literal_absent (c : ascii) (w : string)
      (prev : option ascii) (s : string) :
  match s with String d _ => Ascii.eqb c d = false | EmptyString => True end ->
  match_at (Str (String c w)) prev s = None.
Proof. destruct s as [|d s]; cbn; [reflexivity | now intros ->]. Qed.

Lemma replace_literal_absent (c : ascii) (w : string)
      (tmpl : list piece) (s : string) :
  avoids (Ascii.eqb c) s = true ->
  replace (Str (String c w)) tmpl s = s.
Proof.
  unfold replace. generalize (@None ascii).
  induction s as [|d s IH]; intros prev H.
  - apply replace_from_miss_end. now apply match_at_literal_absent.
  - cbn in H. apply andb_true_iff in H. destruct H as [Hd Hs].
    apply negb_true_iff in Hd.
    rewrite replace_from_miss by now apply match_at_literal_absent.
    now rewrite IH.
Qed.

(** A pattern anchored at a line start matches nowhere past the start of
    a subject without line terminators. *)
Lemma match_at_bol_inside (r : re) (c : ascii) (s : string) :
  line_terminator c = false -> match_at (Seq Bol r) (Some c) s = None.
Proof. intro H. unfold match_at. cbn. now rewrite H. Qed.

Lemma replace_from_bol_inside (r : re) (tmpl : list piece) (s : string) :
  avoids line_terminator s = true ->
  forall c, line_terminator c = false ->
  replace_from (Seq Bol r) tmpl (Some c) s 0 = s.
Proof.
  induction s as [|d s IH]; intros H c Hc.
  - apply replace_from_miss_end. now apply match_at_bol_inside.
  - cbn in H. apply andb_true_iff in H. destruct H as [Hd Hs].
    apply negb_true_iff in Hd.
    rewrite replace_from_miss by now apply match_at_bol_inside.
    now rewrite IH.
Qed.

Lemma replace_bol_no_match (r : re) (tmpl : list piece) (s : string) :
  match_at (Seq Bol r) None s = None ->
  avoids line_terminator s = true ->
  replace (Seq Bol r) tmpl s = s.
Proof.
  intros Hm H. unfold replace. destruct s as [|d s].
  - now apply replace_from_miss_end.
  - cbn in H. apply andb_true_iff in H. destruct H as [Hd Hs].
    apply negb_true_iff in Hd.
    rewrite replace_from_miss by exact Hm.
    now rewrite replace_from_bol_inside.
Qed.

Lemma includes_first_absent (c : ascii) (w t rest : string) :
  avoids (Ascii.eqb c) t = true ->
  includes (String c w) (t ++ rest) = includes (String c w) rest.
Proof.
  induction t as [|d t IH]; intro H; [reflexivity|].
  cbn in H. apply andb_true_iff in H. destruct H as [Hd Ht].
  apply negb_true_iff in Hd.
  cbn [append includes prefix].
  destruct (ascii_dec c d) as [->|Hne].
  - rewrite Ascii.eqb_refl in Hd. discriminate.
  - cbn. now apply IH.
Qed.

Lemma lit_prefix (w : string) (k : cont) (s : string) (cs : list string) :
  forall prev n,
  lit w k prev (w ++ s) n cs = k (last_char prev w) s (String.length w + n) cs.
Proof.
  induction w as [|c w IH]; intros prev n; [reflexivity|].
  cbn [append lit last_char String.length]. rewrite Ascii.eqb_refl, IH.
  now rewrite <- plus_n_Sm.
Qed.

End RegExpFacts.

(** ** Substitutions anchored at a line start, line by line *)

Module LineFacts.
Import RegExp Markdown Spec Scan StringFacts RegExpFacts.
Local Open Scope nat_scope.
Local Open Scope string_scope.

Lemma strip_prefix_app (w s : string) :
  forall rest, strip_prefix w s = Some rest -> s = w ++ rest.
Proof.
  revert s. induction w as [|c w IH]; intros s rest H; cbn in *.
  - congruence.
  - destruct s as [|d s]; [discriminate|].
    destruct (Ascii.eqb c d) eqn:E; [|discriminate].
    apply Ascii.eqb_eq in E. subst d. now rewrite (IH s rest H).
Qed.

Lemma replace_from_skip (r : re) (tmpl : list piece) (a tail : string) :
  forall prev,
  replace_from r tmpl prev (a ++ tail) (String.length a)
  = replace_from r tmpl (last_char prev a) tail 0.
Proof.
  induction a as [|c a IH]; intro prev; [reflexivity|].
  cbn [append String.length replace_from last_char]. apply IH.
Qed.

Lemma greedy_to_stop (p : ascii -> bool) (k : cont) (cs : list string) (r : result)
      (t tail : string) :
  avoids (fun c => negb (p c)) t = true ->
  match tail with String e _ => p e = false | EmptyString => True end ->
  forall prev n,
  k (last_char prev t) tail (String.length t + n) cs = Some r ->
  greedy p k prev (t ++ tail) n cs = Some r.
Proof.
  intros H Htail. induction t as [|d t IH]; intros prev n Hk.
  - cbn in *. destruct tail as [|e tail]; cbn; [exact Hk|]. now rewrite Htail.
  - cbn in H. apply andb_true_iff in H. destruct H as [Hd Ht].
    rewrite negb_involutive in Hd. cbn [append greedy]. rewrite Hd.
    rewrite (IH Ht (Some d) (S n)); [reflexivity|].
    cbn in Hk. now rewrite <- plus_n_Sm.
Qed.

Lemma dot_stops (tail : string) :
  line_end tail -> match tail with String e _ => dot e = false | EmptyString => True end.
Proof. destruct tail as [|e tail]; cbn; [auto|]. unfold dot. now intros ->. Qed.

Lemma avoids_not_dot (t : string) :
  avoids line_terminator t = true -> avoids (fun c => negb (dot c)) t = true.
Proof.
  apply avoids_weaken. intro c. unfold dot. now rewrite negb_involutive.
Qed.

(** At a line start, a line that starts with [w] is matched whole. *)
Lemma match_at_line_start (w : string) (prev : option ascii) (t tail : string) :
  line_start prev -> avoids line_terminator t = true -> line_end tail ->
  match_at (line_re w) prev (w ++ t ++ tail)
  = Some (String.length t + (String.length w + 0), [t]).
Proof.
  intros Hp Ht Htail. unfold match_at, line_re. cbn [matcher].
  assert (Hbol : forall (k : cont) s n cs,
             match prev with
             | None => k prev s n cs
             | Some c => if line_terminator c then k prev s n cs else None
             end = k prev s n cs).
  { intros. destruct prev as [c|]; [|reflexivity]. cbn in Hp. now rewrite Hp. }
  rewrite Hbol, lit_prefix. cbn [matcher].
  apply greedy_to_stop; [now apply avoids_not_dot | now apply dot_stops |].
  unfold accept. rewrite Nat.add_sub, substring_prefix. cbn [app].
  destruct tail as [|d tail]; [reflexivity|]. cbn in Htail. now rewrite Htail.
Qed.

(** At a line start, a line that does not start with [w] is not matched. *)
Lemma lit_no_prefix (k : cont) (cs : list string) (tail : string) :
  line_end tail ->
  forall v line prev n,
  avoids line_terminator v = true ->
  strip_prefix v line = None ->
  lit v k prev (line ++ tail) n cs = None.
Proof.
  intros Htail v. induction v as [|c v IH]; intros line prev n Hv H; [discriminate|].
  cbn in Hv. apply andb_true_iff in Hv. destruct Hv as [Hc Hv].
  apply negb_true_iff in Hc.
  destruct line as [|d line]; cbn [append lit].
  - destruct tail as [|e tail]; [reflexivity|]. cbn in Htail.
    destruct (Ascii.eqb c e) eqn:E; [|reflexivity].
    apply Ascii.eqb_eq in E. congruence.
  - cbn in H. destruct (Ascii.eqb c d); [|reflexivity]. now apply IH.
Qed.

Lemma match_at_other_line (w : string) (prev : option ascii) (line tail : string) :
  avoids line_terminator w = true ->
  line_end tail -> strip_prefix w line = None ->
  match_at (line_re w) prev (line ++ tail) = None.
Proof.
  intros Hw Htail H. unfold match_at, line_re. cbn [matcher].
  rewrite (lit_no_prefix _ _ tail Htail w line) by assumption.
  destruct prev as [c|]; [|reflexivity]. now destruct (line_terminator c).
Qed.

(** Past its start, a line is copied up to its end. *)
Lemma replace_from_inside (r : re) (tmpl : list piece) (t tail : string) :
  avoids line_terminator t = true ->
  forall c, line_terminator c = false ->
  replace_from (Seq Bol r) tmpl (Some c) (t ++ tail) 0
  = t ++ replace_from (Seq Bol r) tmpl (last_char (Some c) t) tail 0.
Proof.
  induction t as [|d t IH]; intros H c Hc; [reflexivity|].
  cbn in H. apply andb_true_iff in H. destruct H as [Hd Ht].
  apply negb_true_iff in Hd. cbn [append last_char].
  rewrite replace_from_miss by now apply match_at_bol_inside.
  now rewrite IH.
Qed.

Lemma last_char_line (line : string) (prev : option ascii) :
  avoids line_terminator line = true -> line <> "" ->
  exists c, last_char prev line = Some c /\ line_terminator c = false.
Proof.
  revert prev. induction line as [|d line IH]; intros prev H Hne; [congruence|].
  cbn in H. apply andb_true_iff in H. destruct H as [Hd Hl].
  apply negb_true_iff in Hd. cbn [last_char].
  destruct line as [|e line]; [exists d; auto|].
  apply IH; [exact Hl | discriminate].
Qed.

(** After a line, the scan goes on behind the line terminator. *)
Lemma replace_from_line_end (r : re) (tmpl : list piece) (c : ascii) (tail : string) :
  line_terminator c = false ->
  replace_from (Seq Bol r) tmpl (Some c) tail 0
  = match tail with
    | EmptyString => ""
    | String e tail' => String e (replace_from (Seq Bol r) tmpl (Some e) tail' 0)
    end.
Proof.
  intro Hc. destruct tail as [|e tail'].
  - apply replace_from_miss_end. now apply match_at_bol_inside.
  - apply replace_from_miss. now apply match_at_bol_inside.
Qed.

(** One line of the subject, from its start. *)
Lemma replace_from_line (w : string) (tmpl : list piece)
      (prev : option ascii) (line tail : string) :
  avoids line_terminator w = true -> w <> "" ->
  line_start prev -> avoids line_terminator line = true -> line_end tail ->
  replace_from (line_re w) tmpl prev (line ++ tail) 0
  = rewrite_line w tmpl line ++
    match tail with
    | EmptyString => ""
    | String c tail' => String c (replace_from (line_re w) tmpl (Some c) tail' 0)
    end.
Proof.
  intros Hw Hne Hp Hl Htail.
  unfold rewrite_line. destruct (strip_prefix w line) as [t|] eqn:E.
  - (* the line starts with [w] *)
    pose proof (strip_prefix_app _ _ _ E) as ->.
    rewrite avoids_app in Hl. apply andb_true_iff in Hl. destruct Hl as [_ Ht].
    rewrite <- append_assoc.
    pose proof (match_at_line_start w prev t tail Hp Ht Htail) as Hm.
    destruct w as [|c v]; [congruence|].
    cbn [append] in *. cbn [replace_from]. rewrite Hm.
    f_equal.
    replace (String.length t + (String.length (String c v) + 0))
      with (S (String.length (v ++ t))) by (rewrite length_app; cbn; lia).
    rewrite append_assoc, replace_from_skip.
    destruct (last_char_line (String c (v ++ t)) prev) as (e & He & Hne').
    { cbn. rewrite avoids_app. cbn in Hw. now rewrite Ht, andb_true_r. }
    { discriminate. }
    cbn [last_char] in He. rewrite He. now apply replace_from_line_end.
  - (* another line *)
    destruct line as [|d line].
    + cbn [append]. destruct tail as [|e tail'].
      * apply replace_from_miss_end.
        now apply (match_at_other_line w prev "" "").
      * apply replace_from_miss.
        now apply (match_at_other_line w prev "" (String e tail')).
    + cbn in Hl. apply andb_true_iff in Hl. destruct Hl as [Hd Hl].
      apply negb_true_iff in Hd. cbn [append].
      rewrite replace_from_miss
        by (now apply (match_at_other_line w prev (String d line) tail)).
      unfold line_re. rewrite replace_from_inside by assumption.
      destruct (last_char_line (String d line) prev) as (e & He & Hne').
      { cbn. now rewrite Hd, Hl. }
      { discriminate. }
      cbn [last_char] in He. rewrite He. now rewrite replace_from_line_end.
Qed.

(** The substitution works line by line on a text of LF-separated lines. *)
Lemma replace_lines (w : string) (tmpl : list piece) (lines : list string) :
  avoids line_terminator w = true -> w <> "" ->
  Forall (fun line => avoids line_terminator line = true) lines ->
  replace (line_re w) tmpl (join_lines lines)
  = join_lines (map (rewrite_line w tmpl) lines).
Proof.
  intros Hw Hne H. unfold replace.
  assert (Hp : line_start None) by exact I. revert Hp. generalize (@None ascii).
  induction H as [|line rest Hl Hrest IH]; intros prev Hp.
  - cbn [join_lines map]. apply replace_from_miss_end.
    apply (match_at_other_line w prev "" ""); [exact Hw | exact I|].
    destruct w; [congruence | reflexivity].
  - destruct rest as [|line' rest].
    + cbn [join_lines map]. rewrite <- (append_empty_r line) at 1.
      rewrite replace_from_line; auto; [apply append_empty_r | exact I].
    + change (join_lines (line :: line' :: rest))
        with (line ++ String "010" (join_lines (line' :: rest))).
      rewrite replace_from_line; auto; [|reflexivity].
      rewrite IH by reflexivity. reflexivity.
Qed.

Lemma strip_prefix_self (w t : string) : strip_prefix w (w ++ t) = Some t.
Proof.
  induction w as [|c w IH]; cbn; [reflexivity | now rewrite Ascii.eqb_refl].
Qed.

(** The one-line subject [w ++ t]. *)
Lemma replace_line (w t : string) (tmpl : list piece) :
  avoids line_terminator (w ++ t) = true -> w <> "" ->
  replace (line_re w) tmpl (w ++ t) = expand tmpl [t].
Proof.
  intros H Hne.
  pose proof H as Hw. rewrite avoids_app in Hw. apply andb_true_iff in Hw.
  pose proof (replace_lines w tmpl [w ++ t] (proj1 Hw) Hne
                (Forall_cons _ H (Forall_nil _))) as E.
  cbn [join_lines map] in E. rewrite E. unfold rewrite_line.
  now rewrite strip_prefix_self.
Qed.

End LineFacts.

(** ** formatMarkdown on header lines *)

Module MarkdownFacts.
Import RegExp Markdown Spec Scan StringFacts RegExpFacts LineFacts.
Local Open Scope nat_scope.
Local Open Scope string_scope.

Lemma plain_avoids (bad : ascii -> bool) (t : string) :
  (forall c, bad c = true -> markup c = true) ->
  plain t = true -> avoids bad t = true.
Proof. intros H Ht. now apply (avoids_weaken markup). Qed.

Lemma markup_line_terminator (c : ascii) :
  line_terminator c = true -> markup c = true.
Proof. intro H. unfold markup. now rewrite H. Qed.

Lemma markup_eqb (d : ascii) :
  markup d = true -> forall c, Ascii.eqb d c = true -> markup c = true.
Proof. intros H c E. apply Ascii.eqb_eq in E. now subst. Qed.

(** Side conditions [avoids bad s = true] on a subject built around [t]. *)
Ltac solve_avoids :=
  cbn; rewrite ?avoids_app;
  repeat match goal with H : avoids _ _ = true |- _ => rewrite H; clear H end;
  reflexivity.

(** The innermost substitution of the chain, when it matches nowhere. *)
Ltac identity_stage :=
  match goal with
  | |- context [replace ?r ?tm ?s] =>
      lazymatch s with
      | context [replace] => fail
      | _ => idtac
      end;
      let E := fresh "E" in
      assert (E : replace r tm s = s) by
        (first [ apply replace_bol_no_match; [reflexivity | solve_avoids]
               | apply replace_first_absent; solve_avoids
               | apply replace_literal_absent; solve_avoids ]);
      rewrite E; clear E
  end.

(** The innermost substitution, when it is the header pattern [w] on
    the line [w ++ t]. *)
Ltac header_stage w t :=
  match goal with
  | |- context [replace ?r ?tm ?s] =>
      lazymatch s with
      | context [replace] => fail
      | _ => idtac
      end;
      let E := fresh "E" in
      assert (E : replace r tm s = expand tm [t]) by
        (apply (replace_line w t tm); [solve_avoids | discriminate]);
      rewrite E; clear E; cbn [expand wrap nth append Nat.sub]
  end.

(** The post-pass on a subject without list items. *)
Ltac no_list_items :=
  unfold fix_lists; cbn [append]; rewrite <- append_assoc;
  match goal with
  | |- (if includes ?w ?s then _ else _) = _ =>
      let E := fresh "E" in
      assert (E : includes w s = false) by
        (cbn; rewrite includes_first_absent by assumption; reflexivity);
      rewrite E; clear E
  end.

Ltac header_case w t :=
  repeat first [identity_stage | header_stage w t];
  no_list_items; reflexivity.

Lemma strip_prefix_avoids (bad : ascii -> bool) (w line rest : string) :
  avoids bad line = true -> strip_prefix w line = Some rest -> avoids bad rest = true.
Proof.
  intros H E. apply strip_prefix_app in E. subst line.
  rewrite avoids_app in H. now apply andb_true_iff in H.
Qed.

Lemma mark_header_no_terminator (n : nat) (line : string) :
  1 <= n <= 5 ->
  avoids line_terminator line = true ->
  avoids line_terminator (mark_header n line) = true.
Proof.
  intros Hn H. unfold mark_header, rewrite_line.
  destruct (strip_prefix _ line) as [rest|] eqn:E; [|exact H].
  apply (strip_prefix_avoids _ _ _ _ H) in E.
  destruct n as [|[|[|[|[|[|n]]]]]]; try lia;
    cbn; rewrite avoids_app, E; reflexivity.
Qed.

Lemma Forall_mark_header (n : nat) (lines : list string) :
  1 <= n <= 5 ->
  Forall (fun line => avoids line_terminator line = true) lines ->
  Forall (fun line => avoids line_terminator line = true) (map (mark_header n) lines).
Proof.
  intros Hn H. induction H; cbn; constructor; auto using mark_header_no_terminator.
Qed.

(** The header substitution of level [n] works line by line. *)
Lemma replace_header (n : nat) (lines : list string) :
  1 <= n <= 5 ->
  Forall (fun line => avoids line_terminator line = true) lines ->
  replace (header (hashes n)) (wrap (h n)) (join_lines lines)
  = join_lines (map (mark_header n) lines).
Proof.
  intros Hn H.
  apply (replace_lines (hashes n ++ " ") (wrap (h n)) lines); [| |exact H];
    destruct n as [|[|[|[|[|[|n]]]]]]; try lia; (reflexivity || discriminate).
Qed.

(** The five header substitutions work line by line. *)
Lemma headers_lines (lines : list string) :
  Forall (fun line => avoids line_terminator line = true) lines ->
  headers (join_lines lines) = join_lines (map mark_headers lines).
Proof.
  intro H. unfold headers. cbv zeta.
  pose proof (Forall_mark_header 1 _ ltac:(lia) H) as H1.
  pose proof (Forall_mark_header 2 _ ltac:(lia) H1) as H2.
  pose proof (Forall_mark_header 3 _ ltac:(lia) H2) as H3.
  pose proof (Forall_mark_header 4 _ ltac:(lia) H3) as H4.
  rewrite (replace_header 1) by (lia || assumption).
  rewrite (replace_header 2) by (lia || assumption).
  rewrite (replace_header 3) by (lia || assumption).
  rewrite (replace_header 4) by (lia || assumption).
  rewrite (replace_header 5) by (lia || assumption).
  rewrite !map_map. reflexivity.
Qed.

(** On a line of [n] hashes, a space and a title, the five substitutions
    leave the level-[n] element around the title. *)
Lemma mark_headers_header (n : nat) (t : string) :
  1 <= n <= 5 ->
  mark_headers (hashes n ++ " " ++ t) = "<" ++ h n ++ ">" ++ t ++ "</" ++ h n ++ ">".
Proof.
  intro Hn. destruct n as [|[|[|[|[|[|n]]]]]]; try lia; reflexivity.
Qed.

Lemma Forall_app_line (before after : list string) (line : string) :
  Forall (fun l => avoids line_terminator l = true) before ->
  avoids line_terminator line = true ->
  Forall (fun l => avoids line_terminator l = true) after ->
  Forall (fun l => avoids line_terminator l = true) (before ++ line :: after).
Proof. intros Hb Hl Ha. apply Forall_app. split; [exact Hb | now constructor]. Qed.

End MarkdownFacts.

(** ** The trend of the summary *)

Module TrendFacts.
Import JS Dashboard Spec Order FloatFacts.

Lemma ltb_zero_cases (x : float) :
  (0 <? x) = true ->
  Prim2SF x = S754_infinity false \/ exists m e, Prim2SF x = S754_finite false m e.
Proof.
  rewrite ltb_spec. change (Prim2SF 0) with (S754_zero false).
  destruct (Prim2SF x) as [s|s| |s m e]; try destruct s; cbn; try discriminate; eauto.
Qed.

(** [((x - x) / x) * 100] for a strictly positive [x] is +0 when [x] is
    finite and NaN when it is infinite. *)
Lemma self_change (x : float) :
  (0 <? x) = true ->
  let pc := ((x - x) / x) * 100 in
  Prim2SF pc = S754_zero false \/ Prim2SF pc = S754_nan.
Proof.
  intro H. cbv zeta. rewrite mul_spec, div_spec, sub_spec.
  destruct (ltb_zero_cases x H) as [E|(m & e & E)]; rewrite E.
  - right. reflexivity.
  - left. cbn [SF64sub SFsub].
    unfold shl_align. rewrite Z.min_id, Z.sub_diag. cbn [fst cond_Zopp].
    reflexivity.
Qed.

Lemma not_positive_not_negative (x : float) :
  Prim2SF x = S754_zero false \/ Prim2SF x = S754_nan ->
  (0 <? x) = false /\ (x <? 0) = false.
Proof.
  rewrite !ltb_spec. change (Prim2SF 0) with (S754_zero false).
  intros [E|E]; rewrite E; split; reflexivity.
Qed.

End TrendFacts.
(** ** The order of the range shown *)

Module RangeOrder.
Import JS Dashboard Spec Order FloatFacts SanitizerFacts RangeFacts.

Lemma Forall_member {A : Type} (P : A -> Prop) (l : list A) (x : A) :
  Forall P l -> In x l -> P x.
Proof. intros H Hin. rewrite Forall_forall in H. auto. Qed.

(** The least entry of one array is at most the greatest entry of another
    as soon as some entry of the first is at most some entry of the
    second. *)
Lemma min_below_max (lower upper : list float) (l u : float) :
  no_nan lower -> no_nan upper ->
  In l lower -> In u upper -> (l <=? u) = true ->
  (Math_min lower <=? Math_max upper) = true.
Proof.
  intros Nl Nu Il Iu Hle.
  assert (Hnl : lower <> []) by (intros ->; destruct Il).
  assert (Hnu : upper <> []) by (intros ->; destruct Iu).
  destruct (Math_min_is_minimum _ Hnl Nl) as [_ Hmin].
  destruct (Math_max_is_maximum _ Hnu Nu) as [_ Hmax].
  eapply leb_trans; [apply (Forall_member _ _ _ Hmin Il)|].
  eapply leb_trans; [exact Hle | apply (Forall_member _ _ _ Hmax Iu)].
Qed.

Lemma valid_member (values : list float) (x : float) :
  In x values -> is_nan x = false ->
  In x (filter (fun val => negb (is_nan val)) values).
Proof. intros Hin Hx. apply filter_In. split; [exact Hin | now rewrite Hx]. Qed.

End RangeOrder.
(** ** The query of the data requests *)

Module QueryFacts.
Import Spec Query StringFacts.
Local Open Scope nat_scope.
Local Open Scope string_scope.

Lemma symbolsParam_cons (s : string) (rest : list string) :
  symbolsParam (s :: rest) = "symbols=" ++ s ++ others rest.
Proof.
  destruct rest as [|s' rest].
  - unfold symbolsParam. cbn [map join others]. now rewrite append_empty_r.
  - unfold symbolsParam. cbn [map join others]. now rewrite <- append_assoc.
Qed.

Lemma separated_others (rest : list string) : separated (others rest).
Proof. destruct rest; cbn; auto. Qed.

(** Two values free of the separator that are followed by a separator or
    by nothing are read off unambiguously. *)
Lemma value_unambiguous (a : string) :
  forall b t u,
  avoids (Ascii.eqb "&") a = true -> avoids (Ascii.eqb "&") b = true ->
  separated t -> separated u ->
  a ++ t = b ++ u -> a = b /\ t = u.
Proof.
  induction a as [|c a IH]; intros [|d b] t u Ha Hb Ht Hu E; cbn [append] in E.
  - auto.
  - subst t. cbn in Ht. subst d. discriminate.
  - subst u. cbn in Hu. subst c. discriminate.
  - injection E as -> E. cbn in Ha, Hb.
    apply andb_true_iff in Ha, Hb. destruct Ha as [_ Ha], Hb as [_ Hb].
    destruct (IH b t u Ha Hb Ht Hu E) as [-> ->]. auto.
Qed.

Lemma separated_tail (rest : list string) (horizon : string) :
  separated (others rest ++ "&time_horizon=" ++ horizon).
Proof. destruct rest; cbn; auto. Qed.

Lemma append_cancel_l (p a b : string) : p ++ a = p ++ b -> a = b.
Proof. induction p as [|c p IH]; cbn; [auto|]. intro E. injection E as E. auto. Qed.

End QueryFacts.
(** ** Characters that a substitution cannot introduce *)

Module CaptureFacts.
Import RegExp Markdown Spec Scan Shape StringFacts RegExpFacts LineFacts MarkdownFacts.
Local Open Scope nat_scope.
Local Open Scope string_scope.

Section Avoiding.
Variable bad : ascii -> bool.










End Avoiding.


End CaptureFacts.
(** ** formatMarkdown on prose *)

Module ProseFacts.
Import RegExp Markdown Spec Scan Shape StringFacts RegExpFacts LineFacts MarkdownFacts.
Local Open Scope nat_scope.
Local Open Scope string_scope.

Lemma starter_false (c : ascii) :
  starter c = false ->
  Ascii.eqb "#" c = false /\ space c = false /\ digit c = false /\
  bullet c = false /\ Ascii.eqb ">" c = false.
Proof.
  unfold starter. intro H.
  repeat (apply orb_false_iff in H; destruct H as [H ?]). auto.
Qed.

Lemma prose_inv (line : string) :
  prose line = true ->
  exists c rest, line = String c rest /\ starter c = false /\
                 line_terminator c = false /\ plain line = true.
Proof.
  destruct line as [|c rest]; [discriminate|]. cbn [prose]. intro H.
  apply andb_true_iff in H. destruct H as [Hs Hp]. apply negb_true_iff in Hs.
  exists c, rest. repeat split; auto.
  unfold plain in Hp. cbn in Hp. apply andb_true_iff in Hp. destruct Hp as [Hm _].
  apply negb_true_iff in Hm. unfold markup in Hm.
  repeat (apply orb_false_iff in Hm; destruct Hm as [Hm ?]).
  unfold line_terminator. now rewrite Hm.
Qed.

Lemma prose_avoids (bad : ascii -> bool) (line : string) :
  (forall c, bad c = true -> markup c = true) ->
  prose line = true -> avoids bad line = true.
Proof.
  intros Hb H. destruct (prose_inv _ H) as (_ & _ & _ & _ & _ & Hp).
  now apply (plain_avoids bad).
Qed.

Lemma prose_no_terminator (line : string) :
  prose line = true -> avoids line_terminator line = true.
Proof. apply prose_avoids, markup_line_terminator. Qed.

(** The text of calm lines starts with the first character of a prose
    line. *)
Lemma Calm_head (lines : list string) :
  Calm lines ->
  exists c rest, join_lines lines = String c rest /\ starter c = false /\
                 line_terminator c = false.
Proof.
  intro H. assert (Hp : exists line rest, lines = line :: rest /\ prose line = true).
  { destruct H; eauto. }
  destruct Hp as (line & rest & -> & Hp).
  destruct (prose_inv _ Hp) as (c & l' & -> & Hs & Hl & _).
  destruct rest as [|next rest]; cbn [join_lines append]; eauto.
Qed.

Lemma Calm_avoids (bad : ascii -> bool) (lines : list string) :
  (forall c, bad c = true -> markup c = true) -> bad "010"%char = false ->
  Calm lines -> avoids bad (join_lines lines) = true.
Proof.
  intros Hb Hlf H. induction H as [line Hp|line next rest Hp H IH|line rest Hp H IH].
  - now apply prose_avoids.
  - change (join_lines (line :: next :: rest))
      with (line ++ String "010" (join_lines (next :: rest))).
    rewrite avoids_app. cbn [avoids]. now rewrite (prose_avoids bad line Hb Hp), Hlf, IH.
  - assert (E : join_lines (line :: "" :: rest)
                = line ++ String "010" (String "010" (join_lines rest))).
    { destruct H; reflexivity. }
    rewrite E, avoids_app. cbn [avoids].
    now rewrite (prose_avoids bad line Hb Hp), Hlf, IH.
Qed.

(** A pattern that fails on every character other than [c] is stepped
    over by a stretch without [c]. *)
Lemma replace_from_scan (r : re) (tmpl : list piece) (c : ascii) (t tail : string) :
  (forall prev d s, Ascii.eqb c d = false -> match_at r prev (String d s) = None) ->
  avoids (Ascii.eqb c) t = true ->
  forall prev,
  replace_from r tmpl prev (t ++ tail) 0
  = t ++ replace_from r tmpl (last_char prev t) tail 0.
Proof.
  intros Hr. induction t as [|d t IH]; intros H prev; [reflexivity|].
  cbn in H. apply andb_true_iff in H. destruct H as [Hd Ht].
  apply negb_true_iff in Hd. cbn [append last_char].
  rewrite replace_from_miss by now apply Hr.
  now rewrite IH.
Qed.

(** A line not matched at its start is copied. *)
Lemma replace_from_line_miss (r : re) (tmpl : list piece) (prev : option ascii)
      (line tail : string) :
  line <> "" -> avoids line_terminator line = true ->
  match_at (Seq Bol r) prev (line ++ tail) = None ->
  replace_from (Seq Bol r) tmpl prev (line ++ tail) 0
  = line ++
    match tail with
    | EmptyString => ""
    | String e tail' => String e (replace_from (Seq Bol r) tmpl (Some e) tail' 0)
    end.
Proof.
  intros Hne Hl Hm. destruct line as [|d line]; [congruence|].
  pose proof Hl as Hl'. cbn in Hl'. apply andb_true_iff in Hl'. destruct Hl' as [Hd Hl'].
  apply negb_true_iff in Hd. cbn [append] in *.
  rewrite replace_from_miss by exact Hm.
  rewrite replace_from_inside by assumption.
  destruct (last_char_line (String d line) prev Hl) as (e & He & Hne'); [discriminate|].
  cbn [last_char] in He. rewrite He. now rewrite replace_from_line_end.
Qed.

(** A substitution anchored at line starts that matches at no quiet start
    leaves calm text as it is. *)
Lemma replace_bol_calm (r : re) (tmpl : list piece) (lines : list string) :
  (forall prev s, quiet_start s -> match_at (Seq Bol r) prev s = None) ->
  Calm lines ->
  forall prev, replace_from (Seq Bol r) tmpl prev (join_lines lines) 0 = join_lines lines.
Proof.
  intros Hr H. induction H as [line Hp|line next rest Hp H IH|line rest Hp H IH];
    intro prev; destruct (prose_inv _ Hp) as (c & l' & E & Hs & Hc & _).
  - cbn [join_lines]. rewrite <- (append_empty_r line) at 1.
    rewrite replace_from_line_miss; [apply append_empty_r | subst; discriminate | now apply prose_no_terminator |].
    apply Hr. subst. cbn. now left.
  - change (join_lines (line :: next :: rest))
      with (line ++ String "010" (join_lines (next :: rest))).
    rewrite replace_from_line_miss; [now rewrite IH | subst; discriminate
                                    | now apply prose_no_terminator |].
    apply Hr. subst. cbn. now left.
  - assert (Ej : join_lines (line :: "" :: rest)
                 = line ++ String "010" (String "010" (join_lines rest))).
    { destruct H; reflexivity. }
    rewrite Ej.
    rewrite replace_from_line_miss; [| subst; discriminate | now apply prose_no_terminator |].
    + destruct (Calm_head _ H) as (d & s' & Ed & Hd & _).
      rewrite replace_from_miss; [now rewrite IH|].
      apply Hr. rewrite Ed. cbn. right. auto.
    + apply Hr. subst. cbn. now left.
Qed.

Lemma bol_none (k : cont) (prev : option ascii) (s : string) (n : nat) (cs : list string) :
  k prev s n cs = None -> matcher Bol k prev s n cs = None.
Proof.
  intro H. cbn. destruct prev as [c|]; [|exact H]. now destruct (line_terminator c).
Qed.

(** The substitutions anchored at line starts match at no quiet start. *)
Lemma line_re_quiet (c : ascii) (w : string) (prev : option ascii) (s : string) :
  starter c = true -> line_terminator c = false ->
  quiet_start s -> match_at (line_re (String c w)) prev s = None.
Proof.
  intros Hc Hl Hq. unfold match_at, line_re. cbn [matcher]. apply bol_none.
  destruct s as [|d s]; [destruct Hq|]. cbn [lit].
  destruct (Ascii.eqb c d) eqn:E; [|reflexivity].
  apply Ascii.eqb_eq in E. subst d. exfalso. cbn in Hq.
  destruct Hq as [Hq|[Hq _]]; [congruence|]. subst c. discriminate.
Qed.

Lemma ordered_item_quiet (prev : option ascii) (s : string) :
  quiet_start s -> match_at ordered_item prev s = None.
Proof.
  intro Hq. unfold match_at, ordered_item. cbn [matcher]. apply bol_none.
  destruct s as [|c s]; [destruct Hq|]. cbn in Hq. destruct Hq as [Hq|[-> Hq]].
  - destruct (starter_false _ Hq) as (_ & Hs & Hd & _). cbn [greedy]. now rewrite Hs, Hd.
  - destruct s as [|d s]; [destruct Hq|].
    destruct (starter_false _ Hq) as (_ & Hs & Hd & _).
    cbn [greedy]. change (space "010") with true. cbn iota. cbn [greedy].
    rewrite Hs, Hd. reflexivity.
Qed.

Lemma bullet_item_quiet (prev : option ascii) (s : string) :
  quiet_start s -> match_at bullet_item prev s = None.
Proof.
  intro Hq. unfold match_at, bullet_item. cbn [matcher]. apply bol_none.
  destruct s as [|c s]; [destruct Hq|]. cbn in Hq. destruct Hq as [Hq|[-> Hq]].
  - destruct (starter_false _ Hq) as (_ & Hs & _ & Hb & _). cbn [greedy]. now rewrite Hs, Hb.
  - destruct s as [|d s]; [destruct Hq|].
    destruct (starter_false _ Hq) as (_ & Hs & _ & Hb & _).
    cbn [greedy]. change (space "010") with true. cbn iota. cbn [greedy].
    rewrite Hs, Hb. reflexivity.
Qed.

Lemma paragraphs_break (line : string) (c : ascii) (s : string) (rest : list string) :
  paragraphs (line :: String c s :: rest)
  = line ++ String "010" (paragraphs (String c s :: rest)).
Proof. reflexivity. Qed.

Lemma paragraphs_paragraph (line : string) (rest : list string) :
  paragraphs (line :: "" :: rest) = line ++ "</p><p>" ++ paragraphs rest.
Proof. reflexivity. Qed.

Lemma render_break (line : string) (c : ascii) (s : string) (rest : list string) :
  render (line :: String c s :: rest) = line ++ "<br>" ++ render (String c s :: rest).
Proof. reflexivity. Qed.

Lemma render_paragraph (line : string) (rest : list string) :
  render (line :: "" :: rest) = line ++ "</p><p>" ++ render rest.
Proof. reflexivity. Qed.

Lemma Calm_next (next : string) (rest : list string) :
  Calm (next :: rest) -> exists c s, next = String c s.
Proof.
  intro H. assert (Hp : prose next = true) by (inversion H; assumption).
  destruct (prose_inv _ Hp) as (c & s & E & _). eauto.
Qed.

Lemma blank_line_head (prev : option ascii) (d : ascii) (s : string) :
  Ascii.eqb "010" d = false -> match_at blank_line prev (String d s) = None.
Proof. intro H. apply (match_at_first_absent "010" "" _ prev (String d s)). exact H. Qed.

Lemma newline_head (prev : option ascii) (d : ascii) (s : string) :
  Ascii.eqb "010" d = false -> match_at newline prev (String d s) = None.
Proof. intro H. apply (match_at_literal_absent "010" "" prev (String d s)). exact H. Qed.

Lemma markup_LF (c : ascii) : Ascii.eqb "010" c = true -> markup c = true.
Proof. apply markup_eqb. reflexivity. Qed.

Lemma not_terminator_not_LF (c : ascii) :
  line_terminator c = false -> Ascii.eqb "010" c = false.
Proof.
  unfold line_terminator. intro H. apply orb_false_iff in H. destruct H as [H _].
  now rewrite Ascii.eqb_sym.
Qed.

(** [/\n\s*\n/g] on calm text: an empty line becomes a paragraph
    boundary, the other line feeds stay. *)
Lemma blank_line_calm (lines : list string) :
  Calm lines ->
  forall prev,
  replace_from blank_line [Text "</p><p>"] prev (join_lines lines) 0 = paragraphs lines.
Proof.
  intro H. induction H as [line Hp|line next rest Hp H IH|line rest Hp H IH];
    intro prev; pose proof (prose_avoids (Ascii.eqb "010") line markup_LF Hp) as Hl.
  - cbn [join_lines paragraphs]. rewrite <- (append_empty_r line) at 1.
    rewrite (replace_from_scan _ _ "010") by (exact blank_line_head || assumption).
    apply append_empty_r.
  - change (join_lines (line :: next :: rest))
      with (line ++ String "010" (join_lines (next :: rest))).
    rewrite (replace_from_scan _ _ "010") by (exact blank_line_head || assumption).
    destruct (Calm_next _ _ H) as (c0 & s0 & ->).
    destruct (Calm_head _ H) as (d & s' & Ed & Hd & Hd').
    destruct (starter_false _ Hd) as (_ & Hs & _).
    rewrite paragraphs_break, <- IH with (prev := Some "010"%char). f_equal.
    rewrite Ed. apply replace_from_miss.
    unfold match_at, blank_line. cbn [matcher lit LF greedy].
    change (ascii_of_nat 10) with "010"%char.
    rewrite Hs. cbn [lit]. now rewrite (not_terminator_not_LF _ Hd').
  - assert (Ej : join_lines (line :: "" :: rest)
                 = line ++ String "010" (String "010" (join_lines rest))).
    { destruct H; reflexivity. }
    rewrite Ej.
    rewrite (replace_from_scan _ _ "010") by (exact blank_line_head || assumption).
    destruct (Calm_head _ H) as (d & s' & Ed & Hd & Hd').
    destruct (starter_false _ Hd) as (_ & Hs & _).
    rewrite paragraphs_paragraph, <- IH with (prev := Some "010"%char). f_equal.
    rewrite Ed. cbn [replace_from].
    assert (Em : match_at blank_line (last_char prev line)
                   (String "010" (String "010" (String d s'))) = Some (2, [])).
    { unfold match_at, blank_line. cbn [matcher lit LF greedy].
      change (ascii_of_nat 10) with "010"%char.
      change (space "010") with true. rewrite Hs, !Ascii.eqb_refl.
      rewrite (not_terminator_not_LF _ Hd'). reflexivity. }
    rewrite Em. reflexivity.
Qed.

(** [/\n/g] on the result: the line feeds left become [<br>]. *)
Lemma newline_calm (lines : list string) :
  Calm lines ->
  forall prev,
  replace_from newline [Text "<br>"] prev (paragraphs lines) 0 = render lines.
Proof.
  intro H. induction H as [line Hp|line next rest Hp H IH|line rest Hp H IH];
    intro prev; pose proof (prose_avoids (Ascii.eqb "010") line markup_LF Hp) as Hl.
  - cbn [paragraphs render]. rewrite <- (append_empty_r line) at 1.
    rewrite (replace_from_scan _ _ "010") by (exact newline_head || assumption).
    apply append_empty_r.
  - destruct (Calm_next _ _ H) as (c0 & s0 & ->).
    rewrite paragraphs_break, render_break.
    rewrite (replace_from_scan _ _ "010") by (exact newline_head || assumption).
    f_equal. rewrite <- IH with (prev := Some "010"%char). reflexivity.
  - rewrite paragraphs_paragraph, render_paragraph.
    rewrite (replace_from_scan _ _ "010") by (exact newline_head || assumption).
    f_equal.
    rewrite (replace_from_scan _ _ "010") by (exact newline_head || reflexivity).
    now rewrite IH.
Qed.

Lemma markup_lt (c : ascii) : Ascii.eqb "<" c = true -> markup c = true.
Proof. apply markup_eqb. reflexivity. Qed.

(** The HTML of calm lines holds no list item. *)
Lemma render_no_list_item (lines : list string) :
  Calm lines -> includes "<li>" (render lines ++ "</p>") = false.
Proof.
  intro H. induction H as [line Hp|line next rest Hp H IH|line rest Hp H IH];
    pose proof (prose_avoids (Ascii.eqb "<") line markup_lt Hp) as Hl.
  - cbn [render]. now rewrite includes_first_absent.
  - destruct (Calm_next _ _ H) as (c0 & s0 & ->). rewrite render_break.
    rewrite <- !append_assoc. rewrite includes_first_absent by assumption.
    exact IH.
  - rewrite render_paragraph.
    rewrite <- !append_assoc. rewrite includes_first_absent by assumption.
    exact IH.
Qed.

(** The innermost substitution of the chain, when it leaves calm text as
    it is. *)
Ltac calm_stage H :=
  match goal with
  | |- context [replace ?r ?tm ?s] =>
      lazymatch s with
      | context [replace] => fail
      | _ => idtac
      end;
      let E := fresh "E" in
      assert (E : replace r tm s = s) by
        (first [ apply replace_first_absent; apply Calm_avoids;
                 [apply markup_eqb; reflexivity | reflexivity | exact H]
               | unfold replace; apply replace_bol_calm;
                 [ intros prev0 s0 Hq0;
                   first [ now apply (line_re_quiet "#")
                         | now apply (line_re_quiet ">")
                         | now apply ordered_item_quiet
                         | now apply bullet_item_quiet ]
                 | exact H ] ]);
      rewrite E; clear E
  end.

End ProseFacts.

(** ** Emphasis spans *)

Module SpanFacts.
Import RegExp Markdown Spec Scan Shape StringFacts RegExpFacts LineFacts MarkdownFacts ProseFacts.
Local Open Scope nat_scope.
Local Open Scope string_scope.

(** What a plain stretch avoids. *)
Ltac plain_facts t Ht :=
  pose proof (plain_avoids line_terminator t markup_line_terminator Ht);
  pose proof (plain_avoids (Ascii.eqb "*") t (markup_eqb "*" eq_refl) Ht);
  pose proof (plain_avoids (Ascii.eqb "_") t (markup_eqb "_" eq_refl) Ht);
  pose proof (plain_avoids (Ascii.eqb "[") t (markup_eqb "[" eq_refl) Ht);
  pose proof (plain_avoids (Ascii.eqb "`") t (markup_eqb "`" eq_refl) Ht);
  pose proof (plain_avoids (Ascii.eqb "<") t (markup_eqb "<" eq_refl) Ht);
  pose proof (plain_avoids (Ascii.eqb "010") t (markup_eqb "010" eq_refl) Ht).


Lemma lazy_hit (p : ascii -> bool) (k : cont) (prev : option ascii) (s : string)
      (n : nat) (cs : list string) (r : result) :
  k prev s n cs = Some r -> lazy p k prev s n cs = Some r.
Proof. intro H. destruct s; cbn [lazy]; now rewrite H. Qed.

(** A lazy repetition runs through a stretch in which its continuation
    cannot start. *)
Lemma lazy_scan (p : ascii -> bool) (k : cont) (cs : list string) (c : ascii)
      (t tail : string) :
  (forall prev d s n, Ascii.eqb c d = false -> k prev (String d s) n cs = None) ->
  avoids (Ascii.eqb c) t = true ->
  avoids (fun d => negb (p d)) t = true ->
  forall prev n,
  lazy p k prev (t ++ tail) n cs = lazy p k (last_char prev t) tail (String.length t + n) cs.
Proof.
  intros Hk. induction t as [|d t IH]; intros Hc Hp prev n; [reflexivity|].
  cbn in Hc, Hp. apply andb_true_iff in Hc, Hp. destruct Hc as [Hd Hc], Hp as [Hpd Hp].
  apply negb_true_iff in Hd. rewrite negb_involutive in Hpd.
  cbn [append lazy last_char String.length]. rewrite (Hk _ _ _ _ Hd), Hpd, IH by assumption.
  now rewrite <- plus_n_Sm.
Qed.

(** A match that covers the whole subject. *)
Lemma replace_whole (r : re) (tmpl : list piece) (s : string) (cs : list string) :
  s <> "" ->
  match_at r None s = Some (String.length s, cs) ->
  (forall prev, match_at r prev "" = None) ->
  replace r tmpl s = expand tmpl cs.
Proof.
  intros Hne Hm Hend. destruct s as [|c s]; [congruence|].
  unfold replace. cbn [replace_from]. rewrite Hm. cbn [String.length].
  rewrite <- (append_empty_r s) at 1.
  rewrite replace_from_skip, replace_from_miss_end by apply Hend.
  apply append_empty_r.
Qed.

Lemma lit_exact (w : string) (k : cont) (cs : list string) (prev : option ascii) (n : nat) :
  lit w k prev w n cs = k (last_char prev w) "" (String.length w + n) cs.
Proof.
  pose proof (lit_prefix w k "" cs prev n) as H. now rewrite append_empty_r in H.
Qed.

Lemma plain_dot (x : string) :
  avoids line_terminator x = true -> avoids (fun d => negb (dot d)) x = true.
Proof. apply avoids_not_dot. Qed.

(** [w(.*?)w] on [w ++ x ++ w]. *)
Lemma delimited_match (c : ascii) (w' x : string) (prev : option ascii) :
  avoids (Ascii.eqb c) x = true -> avoids line_terminator x = true ->
  let w := String c w' in
  match_at (delimited w) prev (w ++ x ++ w)
  = Some (String.length (w ++ x ++ w), [x]).
Proof.
  intros Hc Hl w. unfold match_at, delimited. cbn [matcher].
  rewrite lit_prefix. cbn [matcher].
  rewrite (lazy_scan dot _ _ c) by
    (try assumption; try (now apply plain_dot);
     intros prev' d s n Hd; unfold w; cbn [lit]; now rewrite Hd).
  apply lazy_hit. rewrite lit_exact. unfold accept.
  rewrite Nat.add_sub, substring_prefix. cbn [app].
  subst w. rewrite !length_app. cbn [String.length]. now rewrite Nat.add_0_r.
Qed.

Lemma delimited_end (w : string) (prev : option ascii) :
  w <> "" -> match_at (delimited w) prev "" = None.
Proof. intro H. destruct w; [congruence | reflexivity]. Qed.

Lemma replace_delimited (c : ascii) (w' x : string) (tmpl : list piece) :
  avoids (Ascii.eqb c) x = true -> avoids line_terminator x = true ->
  replace (delimited (String c w')) tmpl (String c w' ++ x ++ String c w')
  = expand tmpl [x].
Proof.
  intros Hc Hl. apply replace_whole; [discriminate | now apply delimited_match |].
  intro prev. now apply delimited_end.
Qed.

(** The doubled delimiter does not match around a span with single
    delimiters. *)
Lemma replace_double_on_single (c : ascii) (x : string) (tmpl : list piece) :
  avoids (Ascii.eqb c) x = true ->
  let d := String c "" in
  replace (delimited (d ++ d)) tmpl (d ++ x ++ d) = d ++ x ++ d.
Proof.
  intros Hc d. unfold replace, d. cbn [append].
  assert (Hhead : forall prev e s, Ascii.eqb c e = false ->
            match_at (delimited (String c (String c ""))) prev (String e s) = None).
  { intros prev e s He. now apply match_at_first_absent. }
  rewrite replace_from_miss.
  - f_equal. rewrite (replace_from_scan _ _ c) by assumption.
    f_equal. rewrite replace_from_miss by (unfold match_at, delimited; cbn; now rewrite Ascii.eqb_refl).
    f_equal.
  - unfold match_at, delimited. cbn [matcher lit]. rewrite Ascii.eqb_refl.
    destruct x as [|e x]; cbn [append].
    + rewrite Ascii.eqb_refl. reflexivity.
    + cbn in Hc. apply andb_true_iff in Hc. destruct Hc as [He _].
      apply negb_true_iff in He. now rewrite He.
Qed.

(** The innermost substitution of the chain. *)
Ltac innermost tac :=
  match goal with
  | |- context [replace ?r ?tm ?s] =>
      lazymatch s with
      | context [replace] => fail
      | _ => idtac
      end;
      tac r tm s
  end.

Ltac span_stage c w' x :=
  innermost ltac:(fun r tm s =>
    let E := fresh "E" in
    assert (E : replace r tm s = expand tm [x]) by
      (apply (replace_delimited c w' x); assumption);
    rewrite E; clear E; cbn [expand wrap nth append Nat.sub]).

Ltac single_stage c x :=
  innermost ltac:(fun r tm s =>
    let E := fresh "E" in
    assert (E : replace r tm s = s) by
      (apply (replace_double_on_single c x); assumption);
    rewrite E; clear E).

Ltac span_case c w' x :=
  cbn [append]; unfold formatMarkdown, substitutions, headers; cbv zeta;
  repeat first [identity_stage | single_stage c x | span_stage c w' x];
  no_list_items; reflexivity.

End SpanFacts.

(** ** Links and inline code *)

Module GroupFacts.
Import RegExp Markdown Spec Scan Shape StringFacts RegExpFacts LineFacts MarkdownFacts ProseFacts SpanFacts.
Local Open Scope nat_scope.
Local Open Scope string_scope.

(** A group [(p+)] takes a whole non-empty stretch of the class when the
    rest of the pattern matches behind it. *)
Lemma group_plus_match (p : ascii -> bool) (k : cont) (x tail : string)
      (prev : option ascii) (n : nat) (cs : list string) (r : result) :
  x <> "" ->
  avoids (fun c => negb (p c)) x = true ->
  match tail with String e _ => p e = false | EmptyString => True end ->
  k (last_char prev x) tail (String.length x + n) (cs ++ [x])%list = Some r ->
  matcher (Group (Plus p)) k prev (x ++ tail) n cs = Some r.
Proof.
  intros Hne Hp Htail Hk. destruct x as [|d x]; [congruence|].
  cbn in Hp. apply andb_true_iff in Hp. destruct Hp as [Hd Hp].
  rewrite negb_involutive in Hd.
  cbn [matcher append]. rewrite Hd.
  apply greedy_to_stop; [exact Hp | exact Htail |].
  cbn [last_char String.length] in Hk.
  replace (String.length x + S n - n) with (String.length (String d x))
    by (cbn [String.length]; lia).
  change (String d (x ++ tail)) with (String d x ++ tail).
  rewrite (substring_prefix (String d x) tail).
  now rewrite <- plus_n_Sm.
Qed.

Lemma other_than_avoids (c : ascii) (x : string) :
  avoids (Ascii.eqb c) x = true -> avoids (fun d => negb (other_than c d)) x = true.
Proof.
  apply avoids_weaken. intro d. unfold other_than. now rewrite negb_involutive.
Qed.

Lemma matcher_Seq (a b : re) (k : cont) : matcher (Seq a b) k = matcher a (matcher b k).
Proof. reflexivity. Qed.

Lemma matcher_Str (w : string) (k : cont) : matcher (Str w) k = lit w k.
Proof. reflexivity. Qed.

(** The inline-code pattern on a whole span. *)
Lemma code_match (x : string) (prev : option ascii) :
  x <> "" -> avoids (Ascii.eqb "`") x = true ->
  match_at code prev ("`" ++ x ++ "`") = Some (String.length ("`" ++ x ++ "`"), [x]).
Proof.
  intros Hne Hx. unfold match_at, code.
  rewrite matcher_Seq, matcher_Str, lit_prefix, matcher_Seq.
  apply group_plus_match; [exact Hne | now apply other_than_avoids | reflexivity |].
  rewrite matcher_Str, lit_exact. unfold accept. cbn [app].
  rewrite !length_app. cbn [String.length]. now rewrite Nat.add_0_r.
Qed.

(** The link pattern on a whole link. *)
Lemma link_match (a u : string) (prev : option ascii) :
  a <> "" -> u <> "" ->
  avoids (Ascii.eqb "]") a = true -> avoids (Ascii.eqb ")") u = true ->
  match_at link prev ("[" ++ a ++ "](" ++ u ++ ")")
  = Some (String.length ("[" ++ a ++ "](" ++ u ++ ")"), [a; u]).
Proof.
  intros Ha Hu Hca Hcu. unfold match_at, link.
  rewrite matcher_Seq, matcher_Str, lit_prefix, matcher_Seq.
  apply group_plus_match; [exact Ha | now apply other_than_avoids | reflexivity |].
  rewrite matcher_Seq, matcher_Str, lit_prefix, matcher_Seq.
  apply group_plus_match; [exact Hu | now apply other_than_avoids | reflexivity |].
  rewrite matcher_Str, lit_exact. unfold accept. cbn [app].
  rewrite !length_app. cbn [String.length].
  match goal with |- Some (?m, _) = Some (?m', _) => replace m with m' by lia end.
  reflexivity.
Qed.

Lemma replace_code (x : string) (tmpl : list piece) :
  x <> "" -> avoids (Ascii.eqb "`") x = true ->
  replace code tmpl ("`" ++ x ++ "`") = expand tmpl [x].
Proof.
  intros Hne Hx. apply replace_whole; [discriminate | now apply code_match | reflexivity].
Qed.

Lemma replace_link (a u : string) (tmpl : list piece) :
  a <> "" -> u <> "" ->
  avoids (Ascii.eqb "]") a = true -> avoids (Ascii.eqb ")") u = true ->
  replace link tmpl ("[" ++ a ++ "](" ++ u ++ ")") = expand tmpl [a; u].
Proof.
  intros. apply replace_whole; [discriminate | now apply link_match | reflexivity].
Qed.

(** Side conditions [avoids bad s = true] on a subject built around
    several stretches. *)
Ltac solve_avoids_all :=
  repeat first [ progress cbn
               | rewrite avoids_app
               | match goal with H : avoids _ _ = true |- _ => rewrite H end ];
  reflexivity.

Ltac quiet_stage :=
  innermost ltac:(fun r tm s =>
    let E := fresh "E" in
    assert (E : replace r tm s = s) by
      (first [ apply replace_bol_no_match; [reflexivity | solve_avoids_all]
             | apply replace_first_absent; solve_avoids_all
             | apply replace_literal_absent; solve_avoids_all ]);
    rewrite E; clear E).

Ltac no_list_items_all :=
  unfold fix_lists; cbn [append]; rewrite <- ?append_assoc;
  match goal with
  | |- (if includes ?w ?s then _ else _) = _ =>
      let E := fresh "E" in
      assert (E : includes w s = false) by
        (repeat first [ progress cbn | rewrite includes_first_absent by assumption ];
         reflexivity);
      rewrite E; clear E
  end.

End GroupFacts.

(** ** List items *)

Module ItemFacts.
Import RegExp Markdown Spec Scan Shape StringFacts RegExpFacts LineFacts MarkdownFacts ProseFacts SpanFacts GroupFacts.
Local Open Scope nat_scope.
Local Open Scope string_scope.

(** A match of the stretch [a] at the current position. *)
Lemma replace_from_hit (r : re) (tmpl : list piece) (prev : option ascii)
      (a tail : string) (cs : list string) :
  a <> "" ->
  match_at r prev (a ++ tail) = Some (String.length a, cs) ->
  replace_from r tmpl prev (a ++ tail) 0
  = expand tmpl cs ++ replace_from r tmpl (last_char prev a) tail 0.
Proof.
  destruct a as [|c a]; [congruence|]. intros _ Hm.
  cbn [append] in *. cbn [replace_from]. rewrite Hm. cbn [String.length last_char].
  f_equal. apply replace_from_skip.
Qed.

Lemma greedy_zero (p : ascii -> bool) (k : cont) (prev : option ascii) (s : string)
      (n : nat) (cs : list string) :
  match s with String e _ => p e = false | EmptyString => True end ->
  greedy p k prev s n cs = k prev s n cs.
Proof. destruct s as [|e s]; cbn [greedy]; [reflexivity | now intros ->]. Qed.

Lemma matcher_Bol (k : cont) (s : string) (n : nat) (cs : list string) :
  matcher Bol k None s n cs = k None s n cs.
Proof. reflexivity. Qed.

Lemma matcher_Star (p : ascii -> bool) (k : cont) : matcher (Star p) k = greedy p k.
Proof. reflexivity. Qed.

Lemma matcher_Cls (p : ascii -> bool) (k : cont) (prev : option ascii) (d : ascii)
      (s : string) (n : nat) (cs : list string) :
  p d = true -> matcher (Cls p) k prev (String d s) n cs = k (Some d) s (S n) cs.
Proof. intro H. cbn [matcher]. now rewrite H. Qed.

Lemma matcher_Plus (p : ascii -> bool) (k : cont) (prev : option ascii) (d : ascii)
      (s : string) (n : nat) (cs : list string) :
  p d = true ->
  matcher (Plus p) k prev (String d s) n cs = greedy p k (Some d) s (S n) cs.
Proof. intro H. cbn [matcher]. now rewrite H. Qed.

(** [(.*$)] on the rest of a line. *)
Lemma item_body_app (x tail : string) (prev : option ascii) (n : nat) (cs : list string) :
  avoids line_terminator x = true -> line_end tail ->
  matcher (Group (Seq (Star dot) Eol)) accept prev (x ++ tail) n cs
  = Some (String.length x + n, (cs ++ [x])%list).
Proof.
  intros Hx Htail. cbn [matcher].
  apply greedy_to_stop; [now apply avoids_not_dot | now apply dot_stops |].
  unfold accept. rewrite Nat.add_sub, substring_prefix.
  destruct tail as [|d tail]; [reflexivity|]. cbn in Htail. now rewrite Htail.
Qed.

Lemma item_body (x : string) (prev : option ascii) (n : nat) (cs : list string) :
  avoids line_terminator x = true ->
  matcher (Group (Seq (Star dot) Eol)) accept prev x n cs
  = Some (String.length x + n, (cs ++ [x])%list).
Proof.
  intro Hx. pose proof (item_body_app x "" prev n cs Hx I) as H.
  now rewrite append_empty_r in H.
Qed.

Lemma flush_head (x : string) :
  flush x = true -> match x with String e _ => space e = false | EmptyString => True end.
Proof. destruct x as [|e x]; cbn; [auto|]. now intros ->%negb_true_iff. Qed.

(** [\s+(.*$)] on one space and the rest of the line. *)
Lemma item_gap (x : string) (prev : option ascii) (n : nat) (cs : list string) :
  flush x = true -> avoids line_terminator x = true ->
  matcher (Seq (Plus space) (Group (Seq (Star dot) Eol))) accept prev (String " " x) n cs
  = Some (String.length x + S n, (cs ++ [x])%list).
Proof.
  intros Hf Hx. rewrite matcher_Seq, matcher_Plus by reflexivity.
  rewrite greedy_zero by now apply flush_head.
  now apply item_body.
Qed.

Lemma bullet_cases (c : ascii) : bullet c = true -> c = "-"%char \/ c = "*"%char.
Proof.
  unfold bullet. intros [H|H]%orb_true_iff; apply Ascii.eqb_eq in H; auto.
Qed.

Lemma bullet_match (c : ascii) (x : string) :
  bullet c = true -> flush x = true -> avoids line_terminator x = true ->
  match_at bullet_item None (String c (String " " x))
  = Some (String.length (String c (String " " x)), [x]).
Proof.
  intros Hb Hf Hx. unfold match_at, bullet_item.
  rewrite matcher_Seq, matcher_Bol, matcher_Seq, matcher_Star.
  rewrite greedy_zero by (destruct (bullet_cases c Hb); subst; reflexivity).
  rewrite matcher_Seq, matcher_Cls by assumption.
  rewrite item_gap by assumption. cbn [String.length app].
  now rewrite <- !plus_n_Sm, Nat.add_0_r.
Qed.

Lemma bullet_item_end (prev : option ascii) : match_at bullet_item prev "" = None.
Proof. destruct prev as [c|]; cbn; [now destruct (line_terminator c) | reflexivity]. Qed.

Lemma ordered_item_end (prev : option ascii) : match_at ordered_item prev "" = None.
Proof. destruct prev as [c|]; cbn; [now destruct (line_terminator c) | reflexivity]. Qed.

Lemma replace_bullet (c : ascii) (x : string) (tmpl : list piece) :
  bullet c = true -> flush x = true -> avoids line_terminator x = true ->
  replace bullet_item tmpl (String c (String " " x)) = expand tmpl [x].
Proof.
  intros Hb Hf Hx. apply replace_whole; [discriminate | now apply bullet_match |].
  apply bullet_item_end.
Qed.


(** The post-pass on the paragraph that holds one list item. *)
Lemma list_open_miss (prev : option ascii) (d : ascii) (s : string) :
  Ascii.eqb "<" d = false -> match_at list_open prev (String d s) = None.
Proof. intro H. now apply match_at_first_absent. Qed.

Lemma list_close_miss (prev : option ascii) (d : ascii) (s : string) :
  Ascii.eqb "<" d = false -> match_at list_close prev (String d s) = None.
Proof. intro H. unfold match_at, list_close. cbn [matcher lit]. now rewrite H. Qed.

Lemma fix_lists_item (x : string) :
  avoids (Ascii.eqb "<") x = true ->
  fix_lists ("<p><li>" ++ x ++ "</li></p>") = "<p><ul><li>" ++ x ++ "</li></ul></p>".
Proof.
  intro Hx. unfold fix_lists.
  assert (Ei : includes "<li>" ("<p><li>" ++ x ++ "</li></p>") = true)
    by (cbn; now destruct x).
  rewrite Ei.
  assert (Eo : replace list_open [Text "<p><ul>"; Ref 1] ("<p><li>" ++ x ++ "</li></p>")
               = "<p><ul><li>" ++ x ++ "</li></p>").
  { unfold replace.
    rewrite (replace_from_hit _ _ None "<p><li>" _ ["<li>"])
      by (discriminate || (cbn; now destruct x)).
    rewrite (replace_from_scan _ _ "<") by (assumption || apply list_open_miss).
    reflexivity. }
  rewrite Eo. unfold replace. cbn [append].
  do 11 (rewrite replace_from_miss by reflexivity).
  rewrite (replace_from_scan _ _ "<") by (assumption || apply list_close_miss).
  reflexivity.
Qed.

(** A delimiter that is not closed opens no span. *)
Lemma lazy_none (p : ascii -> bool) (k : cont) (cs : list string) (c : ascii) (t : string) :
  (forall prev s n,
     match s with String d _ => Ascii.eqb c d = false | EmptyString => True end ->
     k prev s n cs = None) ->
  avoids (Ascii.eqb c) t = true ->
  forall prev n, lazy p k prev t n cs = None.
Proof.
  intros Hk. induction t as [|d t IH]; intros H prev n.
  - cbn [lazy]. now rewrite Hk.
  - cbn in H. apply andb_true_iff in H. destruct H as [Hd Ht].
    apply negb_true_iff in Hd. cbn [lazy]. rewrite Hk by exact Hd.
    destruct (p d); auto.
Qed.

Lemma lone_delimiter (c : ascii) (w' t : string) (prev : option ascii) :
  w' = "" \/ w' = String c "" ->
  avoids (Ascii.eqb c) t = true ->
  match_at (delimited (String c w')) prev (String c t) = None.
Proof.
  intros Hw Ht. unfold match_at, delimited. rewrite matcher_Seq, matcher_Str.
  cbn [lit]. rewrite Ascii.eqb_refl. destruct Hw as [-> | ->].
  - cbn [lit matcher]. apply (lazy_none _ _ _ c); [|exact Ht].
    intros prev' s n Hs. destruct s as [|d s]; cbn [lit]; [reflexivity | now rewrite Hs].
  - cbn [lit]. destruct t as [|d t]; [reflexivity|].
    cbn in Ht. apply andb_true_iff in Ht. destruct Ht as [Hd _].
    apply negb_true_iff in Hd. now rewrite Hd.
Qed.

Lemma replace_lone_delimiter (c : ascii) (w' t : string) (tmpl : list piece) :
  w' = "" \/ w' = String c "" ->
  avoids (Ascii.eqb c) t = true ->
  replace (delimited (String c w')) tmpl (String c t) = String c t.
Proof.
  intros Hw Ht. unfold replace.
  rewrite replace_from_miss by now apply lone_delimiter.
  f_equal. rewrite <- (append_empty_r t) at 1.
  rewrite (replace_from_scan _ _ c) by
    (try assumption; intros; now apply match_at_first_absent).
  rewrite replace_from_miss_end by now apply delimited_end.
  apply append_empty_r.
Qed.

Ltac lone_stage c t :=
  innermost ltac:(fun r tm s =>
    let E := fresh "E" in
    assert (E : replace r tm s = s) by
      (apply (replace_lone_delimiter c _ t); [auto | solve_avoids_all]);
    rewrite E; clear E).

End ItemFacts.

(** ** Numbered items *)

Module NumberFacts.
Import RegExp Markdown Spec Scan Shape StringFacts RegExpFacts LineFacts MarkdownFacts ProseFacts SpanFacts GroupFacts ItemFacts.
Local Open Scope nat_scope.
Local Open Scope string_scope.

Lemma digit_other (c d : ascii) :
  digit d = true -> digit c = false -> Ascii.eqb c d = false.
Proof.
  intros Hd Hc. destruct (Ascii.eqb c d) eqn:E; [|reflexivity].
  apply Ascii.eqb_eq in E. congruence.
Qed.

Lemma digit_not_space (d : ascii) : digit d = true -> space d = false.
Proof.
  unfold digit, space. cbv zeta. generalize (nat_of_ascii d). intros n H.
  apply andb_true_iff in H. destruct H as [H1 H2].
  apply Nat.leb_le in H1, H2.
  destruct (Nat.leb_spec 9 n), (Nat.leb_spec n 13), (Nat.eqb_spec n 32),
    (Nat.eqb_spec n 160); cbn; try reflexivity; lia.
Qed.

Lemma digit_not_bullet (d : ascii) : digit d = true -> bullet d = false.
Proof.
  intro H. unfold bullet.
  rewrite (Ascii.eqb_sym d "-"), (Ascii.eqb_sym d "*").
  now rewrite !(digit_other _ d H).
Qed.

Lemma all_digits_avoids (bad : ascii -> bool) (ds : string) :
  (forall c, bad c = true -> digit c = false) ->
  all_digits ds = true -> avoids bad ds = true.
Proof.
  intro H. apply avoids_weaken. intros c Hc. now rewrite (H c Hc).
Qed.

Lemma all_digits_avoids_eqb (c : ascii) (ds : string) :
  digit c = false -> all_digits ds = true -> avoids (Ascii.eqb c) ds = true.
Proof.
  intro Hc. apply all_digits_avoids. intros d E. apply Ascii.eqb_eq in E. now subst.
Qed.

Lemma all_digits_no_terminator (ds : string) :
  all_digits ds = true -> avoids line_terminator ds = true.
Proof.
  apply all_digits_avoids. intros c [E|E]%orb_true_iff; apply Ascii.eqb_eq in E; now subst.
Qed.

Lemma all_digits_head (ds : string) :
  ds <> "" -> all_digits ds = true ->
  exists d ds', ds = String d ds' /\ digit d = true /\ all_digits ds' = true.
Proof.
  destruct ds as [|d ds]; [congruence|]. intros _ H.
  unfold all_digits in H. cbn in H. apply andb_true_iff in H. destruct H as [Hd H].
  rewrite negb_involutive in Hd. now exists d, ds.
Qed.

(** A line that starts with a digit is matched by no pattern anchored on
    another literal character. *)
Lemma digits_bol_miss (c : ascii) (w : string) (r : re) (ds tail : string) :
  digit c = false -> ds <> "" -> all_digits ds = true ->
  match_at (Seq Bol (Seq (Str (String c w)) r)) None (ds ++ tail) = None.
Proof.
  intros Hc Hne H. destruct (all_digits_head ds Hne H) as (d & ds' & -> & Hd & _).
  unfold match_at. rewrite matcher_Seq, matcher_Bol, matcher_Seq, matcher_Str.
  cbn [append lit]. now rewrite (digit_other c d Hd Hc).
Qed.

Lemma digits_bullet_miss (ds tail : string) :
  ds <> "" -> all_digits ds = true ->
  match_at bullet_item None (ds ++ tail) = None.
Proof.
  intros Hne H. destruct (all_digits_head ds Hne H) as (d & ds' & -> & Hd & _).
  unfold match_at, bullet_item.
  rewrite matcher_Seq, matcher_Bol, matcher_Seq, matcher_Star. cbn [append].
  rewrite greedy_zero by now apply digit_not_space.
  rewrite matcher_Seq. cbn [matcher]. now rewrite (digit_not_bullet d Hd).
Qed.

Lemma ordered_match (ds x : string) :
  ds <> "" -> all_digits ds = true ->
  flush x = true -> avoids line_terminator x = true ->
  match_at ordered_item None (ds ++ String "." (String " " x))
  = Some (String.length (ds ++ String "." (String " " x)), [x]).
Proof.
  intros Hne H Hf Hx. destruct (all_digits_head ds Hne H) as (d & ds' & -> & Hd & Hds).
  unfold match_at, ordered_item.
  rewrite matcher_Seq, matcher_Bol, matcher_Seq, matcher_Star. cbn [append].
  rewrite greedy_zero by now apply digit_not_space.
  rewrite matcher_Seq, matcher_Plus by assumption.
  apply greedy_to_stop; [exact Hds | reflexivity |].
  rewrite matcher_Seq, matcher_Str. cbn [lit]. rewrite Ascii.eqb_refl.
  rewrite item_gap by assumption. cbn [app String.length].
  rewrite length_app. cbn [String.length].
  match goal with |- Some (?m, _) = Some (?m', _) => replace m with m' by lia end.
  reflexivity.
Qed.

Lemma replace_ordered (ds x : string) (tmpl : list piece) :
  ds <> "" -> all_digits ds = true ->
  flush x = true -> avoids line_terminator x = true ->
  replace ordered_item tmpl (ds ++ String "." (String " " x)) = expand tmpl [x].
Proof.
  intros Hne H Hf Hx. apply replace_whole; [| now apply ordered_match | apply ordered_item_end].
  destruct ds; [congruence | discriminate].
Qed.

Ltac digits_facts ds H :=
  pose proof (all_digits_no_terminator ds H);
  pose proof (all_digits_avoids_eqb "*" ds eq_refl H);
  pose proof (all_digits_avoids_eqb "_" ds eq_refl H);
  pose proof (all_digits_avoids_eqb "[" ds eq_refl H);
  pose proof (all_digits_avoids_eqb "`" ds eq_refl H);
  pose proof (all_digits_avoids_eqb "<" ds eq_refl H);
  pose proof (all_digits_avoids_eqb "010" ds eq_refl H).

Ltac digits_quiet_stage :=
  innermost ltac:(fun r tm s =>
    let E := fresh "E" in
    assert (E : replace r tm s = s) by
      (apply replace_bol_no_match;
       [ first [ apply digits_bol_miss; [reflexivity | assumption | assumption]
               | apply digits_bullet_miss; assumption ]
       | solve_avoids_all ]);
    rewrite E; clear E).

End NumberFacts.

(** ** Lists of several items *)

Module ListFacts.
Import RegExp Markdown Spec Scan Shape StringFacts RegExpFacts LineFacts MarkdownFacts ProseFacts SpanFacts GroupFacts ItemFacts Query.
Local Open Scope nat_scope.
Local Open Scope string_scope.

Lemma item_inv (x : string) :
  item x = true ->
  plain x = true /\ flush x = true /\
  exists c s, x = String c s /\ space c = false.
Proof.
  destruct x as [|c s]; [discriminate|]. cbn [item flush].
  intros [Hs Hp]%andb_true_iff. repeat split; auto.
  exists c, s. split; [reflexivity | now apply negb_true_iff].
Qed.

Lemma join_lines_cons (line next : string) (rest : list string) :
  join_lines (line :: next :: rest) = line ++ String "010" (join_lines (next :: rest)).
Proof. reflexivity. Qed.

Lemma join_lines_map (f : string -> string) (x y : string) (rest : list string) :
  join_lines (map f (x :: y :: rest))
  = f x ++ String "010" (join_lines (map f (y :: rest))).
Proof. reflexivity. Qed.

Lemma join_cons (sep line next : string) (rest : list string) :
  join sep (line :: next :: rest) = line ++ sep ++ join sep (next :: rest).
Proof. reflexivity. Qed.

Lemma avoids_join_lines (bad : ascii -> bool) (lines : list string) :
  bad "010"%char = false ->
  Forall (fun line => avoids bad line = true) lines ->
  avoids bad (join_lines lines) = true.
Proof.
  intros Hlf H. induction H as [|line rest Hl H IH]; [reflexivity|].
  destruct rest as [|next rest]; [exact Hl|].
  rewrite join_lines_cons, avoids_app, Hl. cbn [avoids]. now rewrite Hlf, IH.
Qed.

(** A substitution anchored at line starts that matches at the start of no
    line leaves the lines as they are. *)
Lemma replace_bol_lines (r : re) (tmpl : list piece) (lines : list string) :
  lines <> [] ->
  Forall (fun line => line <> "" /\ avoids line_terminator line = true /\
                      forall prev tail, match_at (Seq Bol r) prev (line ++ tail) = None)
         lines ->
  forall prev, replace_from (Seq Bol r) tmpl prev (join_lines lines) 0 = join_lines lines.
Proof.
  intros Hlines H. induction H as [|line rest (Hne & Hl & Hm) H IH]; [congruence|].
  intro prev. destruct rest as [|next rest].
  - cbn [join_lines]. rewrite <- (append_empty_r line) at 1.
    rewrite replace_from_line_miss by (assumption || apply Hm). apply append_empty_r.
  - rewrite join_lines_cons.
    rewrite replace_from_line_miss by (assumption || apply Hm).
    now rewrite IH.
Qed.

Lemma bol_first_miss (c : ascii) (w : string) (r : re) (prev : option ascii)
      (d : ascii) (s : string) :
  Ascii.eqb c d = false ->
  match_at (Seq Bol (Seq (Str (String c w)) r)) prev (String d s) = None.
Proof.
  intro H. unfold match_at. rewrite matcher_Seq. apply bol_none.
  rewrite matcher_Seq, matcher_Str. cbn [lit]. now rewrite H.
Qed.

Lemma ordered_first_miss (prev : option ascii) (d : ascii) (s : string) :
  space d = false -> digit d = false ->
  match_at ordered_item prev (String d s) = None.
Proof.
  intros Hs Hd. unfold match_at, ordered_item. rewrite matcher_Seq. apply bol_none.
  rewrite matcher_Seq, matcher_Star, greedy_zero by exact Hs.
  rewrite matcher_Seq. cbn [matcher]. now rewrite Hd.
Qed.

Lemma matcher_Bol_start (k : cont) (prev : option ascii) (s : string) (n : nat)
      (cs : list string) :
  line_start prev -> matcher Bol k prev s n cs = k prev s n cs.
Proof.
  intro H. cbn [matcher]. destruct prev as [c|]; [|reflexivity].
  cbn in H. now rewrite H.
Qed.

(** At a line start, a bullet line is matched whole. *)
Lemma dash_match (prev : option ascii) (x tail : string) :
  line_start prev -> item x = true -> line_end tail ->
  match_at bullet_item prev (dash x ++ tail) = Some (String.length (dash x), [x]).
Proof.
  intros Hp Hi Htail. destruct (item_inv x Hi) as (Hx & Hf & c & s & E & Hc).
  plain_facts x Hx.
  unfold match_at, bullet_item, dash. cbn [append].
  rewrite matcher_Seq, matcher_Bol_start by exact Hp.
  rewrite matcher_Seq, matcher_Star, greedy_zero by reflexivity.
  rewrite matcher_Seq, matcher_Cls by reflexivity.
  rewrite matcher_Seq, matcher_Plus by reflexivity.
  rewrite greedy_zero by (rewrite E; exact Hc).
  rewrite item_body_app by assumption. cbn [String.length app].
  now rewrite <- !plus_n_Sm, Nat.add_0_r.
Qed.

Lemma dash_no_terminator (x : string) :
  item x = true -> avoids line_terminator (dash x) = true.
Proof.
  intro Hi. destruct (item_inv x Hi) as (Hx & _). plain_facts x Hx. assumption.
Qed.

(** The bullet substitution, line by line. *)
Lemma bullet_lines (items : list string) :
  items <> [] -> Forall (fun x => item x = true) items ->
  forall prev, line_start prev ->
  replace_from bullet_item (wrap "li") prev (join_lines (map dash items)) 0
  = join_lines (map li items).
Proof.
  intros Hne H. induction H as [|x rest Hi H IH]; [congruence|]. intros prev Hp.
  pose proof (dash_no_terminator x Hi) as Hl.
  destruct (last_char_line (dash x) prev Hl) as (e & He & Hne'); [discriminate|].
  destruct rest as [|y rest].
  - cbn [map join_lines]. rewrite <- (append_empty_r (dash x)).
    rewrite (replace_from_hit _ _ _ _ _ [x])
      by (discriminate || now apply dash_match).
    rewrite replace_from_miss_end by apply bullet_item_end.
    cbn [expand wrap nth Nat.sub append li]. now rewrite !append_empty_r.
  - rewrite !join_lines_map.
    rewrite (replace_from_hit _ _ _ _ _ [x])
      by (discriminate || (apply dash_match; [assumption | assumption | reflexivity])).
    rewrite He.
    assert (Hend : forall tail,
              replace_from bullet_item (wrap "li") (Some e) (String "010" tail) 0
              = String "010" (replace_from bullet_item (wrap "li") (Some "010"%char) tail 0)).
    { intro tail. now apply (replace_from_line_end _ (wrap "li") e (String "010" tail)). }
    rewrite Hend.
    rewrite (IH ltac:(discriminate) (Some "010"%char) eq_refl).
    cbn [expand wrap nth Nat.sub append li]. rewrite <- !append_assoc.
    cbn [append]. reflexivity.
Qed.


Lemma map_not_nil {A B : Type} (f : A -> B) (l : list A) : l <> [] -> map f l <> [].
Proof. destruct l; [congruence | discriminate]. Qed.

(** What the lines of a list avoid. *)
Lemma item_lines_avoid (bad : ascii -> bool) (f : string -> string) (items : list string) :
  bad "010"%char = false ->
  (forall c, bad c = true -> markup c = true) ->
  (forall x, avoids bad x = true -> avoids bad (f x) = true) ->
  Forall (fun x => item x = true) items ->
  avoids bad (join_lines (map f items)) = true.
Proof.
  intros Hlf Hb Hf H. apply avoids_join_lines; [exact Hlf|].
  apply Forall_map. eapply Forall_impl; [|exact H]. cbn beta.
  intros x Hi. destruct (item_inv x Hi) as (Hx & _).
  apply Hf. now apply (plain_avoids bad).
Qed.

Lemma dash_avoids (bad : ascii -> bool) (x : string) :
  bad "-"%char = false -> bad " "%char = false ->
  avoids bad x = true -> avoids bad (dash x) = true.
Proof. intros H1 H2 H. unfold dash. cbn. now rewrite H1, H2, H. Qed.

Lemma li_avoids (bad : ascii -> bool) (x : string) :
  avoids bad "<li>" = true -> avoids bad "</li>" = true ->
  avoids bad x = true -> avoids bad (li x) = true.
Proof. intros H1 H2 H. unfold li. now rewrite !avoids_app, H1, H2, H. Qed.

(** Lines that start with a character on which an anchored pattern
    fails. *)
Lemma lines_miss (r : re) (f : string -> string) (d : ascii) (items : list string) :
  (forall prev s, match_at (Seq Bol r) prev (String d s) = None) ->
  (forall x, exists s, f x = String d s) ->
  (forall x, item x = true -> avoids line_terminator (f x) = true) ->
  Forall (fun x => item x = true) items ->
  Forall (fun line => line <> "" /\ avoids line_terminator line = true /\
                      forall prev tail, match_at (Seq Bol r) prev (line ++ tail) = None)
         (map f items).
Proof.
  intros Hm Hf Hl H. apply Forall_map. eapply Forall_impl; [|exact H]. cbn beta.
  intros x Hi. destruct (Hf x) as [s E]. repeat split.
  - rewrite E. discriminate.
  - now apply Hl.
  - intros prev tail. rewrite E. apply Hm.
Qed.

Lemma li_no_terminator (x : string) :
  item x = true -> avoids line_terminator (li x) = true.
Proof.
  intro Hi. destruct (item_inv x Hi) as (Hx & _). plain_facts x Hx.
  now apply li_avoids.
Qed.

(** [/\n\s*\n/g] on lines none of which is empty or starts with white
    space. *)
Lemma blank_line_lines (tmpl : list piece) (lines : list string) :
  lines <> [] ->
  Forall (fun line => avoids (Ascii.eqb "010") line = true /\
                      exists c s, line = String c s /\ space c = false) lines ->
  forall prev, replace_from blank_line tmpl prev (join_lines lines) 0 = join_lines lines.
Proof.
  intros Hne H. induction H as [|line rest (Hl & _) H IH]; [congruence|]. intro prev.
  destruct rest as [|next rest].
  - cbn [join_lines]. rewrite <- (append_empty_r line) at 1.
    rewrite (replace_from_scan _ _ "010") by (exact blank_line_head || assumption).
    rewrite replace_from_miss_end by reflexivity. apply append_empty_r.
  - rewrite join_lines_cons.
    rewrite (replace_from_scan _ _ "010") by (exact blank_line_head || assumption).
    f_equal. rewrite <- (IH ltac:(discriminate) (Some "010"%char)) at 2.
    apply replace_from_miss.
    inversion H as [|? ? (Hn & c & s & -> & Hc) _]; subst.
    assert (E : join_lines (String c s :: rest) = String c (s ++ match rest with
                 | [] => "" | _ :: _ => String "010" (join_lines rest) end)).
    { destruct rest; cbn [join_lines append]; [now rewrite append_empty_r | reflexivity]. }
    rewrite E. unfold match_at, blank_line. cbn [matcher lit LF greedy].
    change (ascii_of_nat 10) with "010"%char. rewrite Ascii.eqb_refl, Hc. cbn [lit].
    cbn [avoids] in Hn. apply andb_true_iff in Hn. destruct Hn as [Hn _].
    apply negb_true_iff in Hn. now rewrite Hn.
Qed.

(** [/\n/g] joins the lines with [<br>]. *)
Lemma newline_lines (lines : list string) :
  lines <> [] ->
  Forall (fun line => avoids (Ascii.eqb "010") line = true) lines ->
  forall prev,
  replace_from newline [Text "<br>"] prev (join_lines lines) 0 = join "<br>" lines.
Proof.
  intros Hne H. induction H as [|line rest Hl H IH]; [congruence|]. intro prev.
  destruct rest as [|next rest].
  - cbn [join_lines join]. rewrite <- (append_empty_r line) at 1.
    rewrite (replace_from_scan _ _ "010") by (exact newline_head || assumption).
    rewrite replace_from_miss_end by reflexivity. apply append_empty_r.
  - rewrite join_lines_cons, join_cons.
    rewrite (replace_from_scan _ _ "010") by (exact newline_head || assumption).
    f_equal. rewrite <- (IH ltac:(discriminate) (Some "010"%char)). reflexivity.
Qed.


Lemma join_li (x : string) (rest : list string) :
  join "<br>" (map li (x :: rest)) = "<li>" ++ x ++ "</li>" ++ following rest.
Proof.
  destruct rest as [|y rest].
  - reflexivity.
  - change (join "<br>" (map li (x :: y :: rest)))
      with (li x ++ "<br>" ++ join "<br>" (map li (y :: rest))).
    unfold li at 1, following. cbn [append]. now rewrite <- !append_assoc.
Qed.

Lemma following_cons (y : string) (rest : list string) :
  following (y :: rest) = "<br><li>" ++ y ++ "</li>" ++ following rest.
Proof. unfold following at 1. rewrite join_li. reflexivity. Qed.

(** The two substitutions of the post-pass, from inside the first
    element on. *)
Lemma open_rest (tmpl : list piece) (rest : list string) :
  Forall (fun x => item x = true) rest ->
  forall x prev, avoids (Ascii.eqb "<") x = true ->
  replace_from list_open tmpl prev (x ++ "</li>" ++ following rest ++ "</p>") 0
  = x ++ "</li>" ++ following rest ++ "</p>".
Proof.
  intro H. induction H as [|y rest Hy H IH]; intros x prev Hx.
  - cbn [following append].
    rewrite (replace_from_scan _ _ "<") by (assumption || apply list_open_miss).
    reflexivity.
  - rewrite following_cons. rewrite <- !append_assoc. cbn [append].
    rewrite (replace_from_scan _ _ "<") by (assumption || apply list_open_miss).
    do 13 (rewrite replace_from_miss by reflexivity).
    destruct (item_inv y Hy) as (Hp & _). plain_facts y Hp.
    now rewrite IH.
Qed.

Lemma close_rest (rest : list string) :
  Forall (fun x => item x = true) rest ->
  forall x prev, avoids (Ascii.eqb "<") x = true ->
  replace_from list_close [Ref 1; Text "</ul></p>"] prev
    (x ++ "</li>" ++ following rest ++ "</p>") 0
  = x ++ "</li>" ++ following rest ++ "</ul></p>".
Proof.
  intro H. induction H as [|y rest Hy H IH]; intros x prev Hx.
  - cbn [following append].
    rewrite (replace_from_scan _ _ "<") by (assumption || apply list_close_miss).
    reflexivity.
  - rewrite following_cons. rewrite <- !append_assoc. cbn [append].
    rewrite (replace_from_scan _ _ "<") by (assumption || apply list_close_miss).
    do 13 (rewrite replace_from_miss by reflexivity).
    destruct (item_inv y Hy) as (Hp & _). plain_facts y Hp.
    now rewrite IH.
Qed.

(** The post-pass on a paragraph made of list items. *)
Lemma fix_lists_items (items : list string) :
  items <> [] -> Forall (fun x => item x = true) items ->
  fix_lists ("<p>" ++ join "<br>" (map li items) ++ "</p>")
  = "<p><ul>" ++ join "<br>" (map li items) ++ "</ul></p>".
Proof.
  intros Hne H. destruct H as [|x rest Hx H]; [congruence|].
  destruct (item_inv x Hx) as (Hp & _ & c & s & E & _). plain_facts x Hp.
  rewrite join_li.
  assert (Es : "<p>" ++ ("<li>" ++ x ++ "</li>" ++ following rest) ++ "</p>"
               = "<p><li>" ++ x ++ "</li>" ++ following rest ++ "</p>").
  { cbn [append]. now rewrite <- !append_assoc. }
  rewrite Es. unfold fix_lists.
  assert (Ei : includes "<li>" ("<p><li>" ++ x ++ "</li>" ++ following rest ++ "</p>") = true).
  { rewrite E. reflexivity. }
  rewrite Ei. unfold replace.
  rewrite (replace_from_hit _ _ None "<p><li>" _ ["<li>"])
    by (discriminate || (rewrite E; reflexivity)).
  rewrite open_rest by assumption.
  cbn [expand nth Nat.sub append last_char].
  do 11 (rewrite replace_from_miss by reflexivity).
  pose proof (close_rest rest H x (Some ">"%char) H5) as Hc.
  cbn [append] in Hc. rewrite Hc.
  rewrite <- !append_assoc. reflexivity.
Qed.

(** The innermost substitution, when it matches at no line of a list. *)
Ltac lines_stage Hne H :=
  innermost ltac:(fun r tm s =>
    let E := fresh "E" in
    assert (E : replace r tm s = s) by
      (first
         [ unfold replace; apply replace_bol_lines;
           [ now apply map_not_nil
           | first
               [ apply (lines_miss _ dash "-");
                 [ intros; first [ now apply bol_first_miss
                                 | now apply ordered_first_miss ]
                 | intro; unfold dash; cbn [append]; eauto
                 | exact dash_no_terminator
                 | exact H ]
               | apply (lines_miss _ li "<");
                 [ intros; now apply bol_first_miss
                 | intro; unfold li; cbn [append]; eauto
                 | exact li_no_terminator
                 | exact H ] ] ]
         | apply replace_first_absent; apply item_lines_avoid;
           [ reflexivity
           | apply markup_eqb; reflexivity
           | intros; first [ now apply dash_avoids | now apply li_avoids ]
           | exact H ] ]);
    rewrite E; clear E).

End ListFacts.

(** ** Lines left as they are *)

Module VerbatimFacts.
Import RegExp Markdown Spec Scan Shape StringFacts RegExpFacts LineFacts MarkdownFacts ProseFacts SpanFacts GroupFacts ItemFacts.
Local Open Scope nat_scope.
Local Open Scope string_scope.

Lemma hashes_avoids (bad : ascii -> bool) (n : nat) :
  bad "#"%char = false -> avoids bad (hashes n) = true.
Proof. intro H. induction n as [|n IH]; cbn; [reflexivity | now rewrite H, IH]. Qed.

Lemma prefix_close (w t : string) :
  w = "<li>" -> prefix w (t ++ "</p>") = prefix w t.
Proof.
  intros ->. destruct t as [|a [|b [|c [|d t]]]]; cbn;
    repeat (destruct (ascii_dec _ _)); try reflexivity; try congruence.
  now destruct t.
Qed.

Lemma includes_close (t : string) :
  includes "<li>" (t ++ "</p>") = includes "<li>" t.
Proof.
  induction t as [|c t IH]; [reflexivity|].
  change (includes "<li>" (String c t ++ "</p>"))
    with (prefix "<li>" (String c t ++ "</p>") || includes "<li>" (t ++ "</p>")).
  change (includes "<li>" (String c t))
    with (prefix "<li>" (String c t) || includes "<li>" t).
  now rewrite IH, prefix_close.
Qed.

Lemma includes_wrapped (t : string) :
  includes "<li>" ("<p>" ++ t ++ "</p>") = includes "<li>" t.
Proof. rewrite <- (includes_close t). reflexivity. Qed.

Lemma reactive_eqb (d : ascii) :
  reactive d = true -> forall c, Ascii.eqb d c = true -> reactive c = true.
Proof. intros H c E. apply Ascii.eqb_eq in E. now subst. Qed.

Lemma reactive_line_terminator (c : ascii) :
  line_terminator c = true -> reactive c = true.
Proof. intro H. unfold reactive. now rewrite H. Qed.

Lemma inert_inv (line : string) :
  inert line = true ->
  line <> "" /\ quiet_start line /\ avoids reactive line = true.
Proof.
  destruct line as [|c s]; [discriminate|]. cbn [inert].
  intros [Hs Hr]%andb_true_iff. apply negb_true_iff in Hs.
  repeat split; [discriminate | now left | exact Hr].
Qed.

Ltac reactive_facts t Ht :=
  pose proof (avoids_weaken reactive line_terminator t reactive_line_terminator Ht);
  pose proof (avoids_weaken reactive (Ascii.eqb "*") t (reactive_eqb "*" eq_refl) Ht);
  pose proof (avoids_weaken reactive (Ascii.eqb "_") t (reactive_eqb "_" eq_refl) Ht);
  pose proof (avoids_weaken reactive (Ascii.eqb "[") t (reactive_eqb "[" eq_refl) Ht);
  pose proof (avoids_weaken reactive (Ascii.eqb "`") t (reactive_eqb "`" eq_refl) Ht);
  pose proof (avoids_weaken reactive (Ascii.eqb "010") t (reactive_eqb "010" eq_refl) Ht).

Ltac inert_stage Hq :=
  innermost ltac:(fun r tm s =>
    let E := fresh "E" in
    assert (E : replace r tm s = s) by
      (first [ apply replace_bol_no_match;
               [ first [ apply (line_re_quiet "#"); [reflexivity | reflexivity | exact Hq]
                       | apply (line_re_quiet ">"); [reflexivity | reflexivity | exact Hq]
                       | apply ordered_item_quiet; exact Hq
                       | apply bullet_item_quiet; exact Hq ]
               | assumption ]
             | apply replace_first_absent; assumption
             | apply replace_literal_absent; assumption ]);
    rewrite E; clear E).

End VerbatimFacts.

(** ** The paragraph around the result *)

Module WrapFacts.
Import RegExp Markdown Spec Scan Shape StringFacts RegExpFacts LineFacts MarkdownFacts ProseFacts SpanFacts GroupFacts ItemFacts.
Local Open Scope nat_scope.
Local Open Scope string_scope.

Lemma list_open_head (s : string) :
  exists rest, replace list_open [Text "<p><ul>"; Ref 1] ("<p>" ++ s) = "<p>" ++ rest.
Proof.
  unfold replace. cbn [append].
  destruct (match_at list_open None (String "<" (String "p" (String ">" s))))
    as [[len cs]|] eqn:E.
  - cbn [replace_from]. rewrite E. cbn [expand append]. eauto.
  - rewrite replace_from_miss by exact E.
    rewrite !replace_from_miss by now apply list_open_miss. eauto.
Qed.

Lemma list_close_head (s : string) :
  exists rest, replace list_close [Ref 1; Text "</ul></p>"] ("<p>" ++ s) = "<p>" ++ rest.
Proof.
  unfold replace. cbn [append].
  rewrite replace_from_miss by reflexivity.
  rewrite !replace_from_miss by now apply list_close_miss. eauto.
Qed.

Lemma fix_lists_head (s : string) :
  exists rest, fix_lists ("<p>" ++ s) = "<p>" ++ rest.
Proof.
  unfold fix_lists. destruct (includes "<li>" ("<p>" ++ s)); [|eauto].
  destruct (list_open_head s) as [rest ->]. apply list_close_head.
Qed.

End WrapFacts.
(** * The claims *)

Import JS Dashboard RegExp Markdown Spec.
Import SanitizerFacts RangeFacts FormatFacts StringFacts MarkdownFacts.

(** C1.  The three arrays the sanitizer builds are each as long as the
    input forecast array, and none of their entries is NaN, whatever the
    fields of the input points are (numbers, NaN, or absent). *)
Theorem sanitizer_arrays_numeric (prediction : Prediction.t) :
  let n := List.length (Prediction.forecast prediction) in
  (List.length (forecastValues prediction) = n /\ no_nan (forecastValues prediction)) /\
  (List.length (lowerCI prediction) = n /\ no_nan (lowerCI prediction)) /\
  (List.length (upperCI prediction) = n /\ no_nan (upperCI prediction)).
Proof.
  unfold forecastValues, lowerCI, upperCI. cbv zeta.
  rewrite !length_map. repeat split.
  - apply no_nan_map, forecastValue_not_nan.
  - apply no_nan_map, lowerValue_not_nan.
  - apply no_nan_map, upperValue_not_nan.
Qed.

(** C2, as stated, fails at [point_110]: in binary64 the upper fallback
    [110 * 1.1] is not 121 (it is the next number above 121). *)
Lemma upper_fallback_110_is_not_121 :
  ~ (lowerValue point_110 = 99 /\ upperValue point_110 = 121).
Proof.
  intros [_ H]. apply (f_equal Prim2SF) in H. vm_compute in H. discriminate H.
Qed.

(** C2, amended.  For every point: the forecast value is the point's
    forecast, or 0 when that is NaN; the lower (upper) value is the
    point's lower (upper) bound, or, when that is NaN, the binary64 product
    of the forecast and 0.9 (1.1), or 0 when the forecast is NaN too.  For
    forecast 110 with both bounds NaN the lower fallback is 99 and the
    upper fallback is the binary64 product 110 * 1.1, the number just above
    121, which prints as 121.00. *)
Theorem sanitizer_point_values (point : ForecastPoint.t) :
  let f := ForecastPoint.forecast point in
  let l := ForecastPoint.lower_ci point in
  let u := ForecastPoint.upper_ci point in
  ((isNaN f = false -> forecastValue point = ToNumber f) /\
   (isNaN f = true -> forecastValue point = 0)) /\
  ((isNaN l = false -> lowerValue point = ToNumber l) /\
   (isNaN l = true -> isNaN f = false -> lowerValue point = ToNumber f * 0.9) /\
   (isNaN l = true -> isNaN f = true -> lowerValue point = 0)) /\
  ((isNaN u = false -> upperValue point = ToNumber u) /\
   (isNaN u = true -> isNaN f = false -> upperValue point = ToNumber f * 1.1) /\
   (isNaN u = true -> isNaN f = true -> upperValue point = 0)) /\
  (lowerValue point_110 = 99 /\
   upperValue point_110 = next_up 121 /\
   toFixed2 (upperValue point_110) = "121.00"%string).
Proof.
  cbv zeta. unfold forecastValue, lowerValue, upperValue.
  repeat split; try (intros; repeat match goal with H : isNaN _ = _ |- _ => rewrite H end; reflexivity).
Qed.

(** The amended C2 at [point_110] and at a point whose three fields are
    all absent. *)
Lemma sanitizer_point_values_witness :
  (lowerValue point_110 = 110 * 0.9 /\ upperValue point_110 = 110 * 1.1) /\
  (let absent := ForecastPoint.mk 0 undefined undefined undefined in
   forecastValue absent = 0 /\ lowerValue absent = 0 /\ upperValue absent = 0).
Proof.
  split.
  - destruct (sanitizer_point_values point_110) as (_ & (_ & Hl & _) & (_ & Hu & _) & _).
    split; [apply Hl | apply Hu]; reflexivity.
  - destruct (sanitizer_point_values (ForecastPoint.mk 0 undefined undefined undefined))
      as ((_ & Hf) & (_ & _ & Hl) & (_ & _ & Hu) & _).
    cbv zeta. split; [apply Hf; reflexivity|].
    split; [apply Hl | apply Hu]; reflexivity.
Defined.

(** C3.  The average forecast is the arithmetic mean of the original
    forecast values that are not NaN and strictly positive, and the last
    price when there is no such value: filtering the sanitized series keeps
    exactly those originals. *)
Theorem average_forecast_of_valid_originals (prediction : Prediction.t) :
  validValues prediction = valid_originals prediction /\
  avgForecast prediction =
    match valid_originals prediction with
    | [] => Prediction.last_price prediction
    | _ :: _ => arithmetic_mean (valid_originals prediction)
    end.
Proof.
  split; [apply validValues_originals|].
  unfold avgForecast. cbv zeta. rewrite validValues_originals.
  now destruct (valid_originals prediction).
Qed.

(** C5.  The percent change is [((average - last) / last) * 100] when the
    last price is strictly positive and 0 otherwise, in particular when the
    last price is at most 0; the division is only evaluated under the
    guard, where its divisor is not zero. *)
Theorem percent_change_guarded (prediction : Prediction.t) :
  let last := Prediction.last_price prediction in
  ((0 <? last) = true ->
     percentChange prediction = ((avgForecast prediction - last) / last) * 100) /\
  ((last <=? 0) = true -> percentChange prediction = 0) /\
  ((0 <? last) = false -> percentChange prediction = 0) /\
  percentChange_checked prediction = Some (percentChange prediction).
Proof.
  cbv zeta. unfold percentChange, percentChange_checked, checked_div.
  repeat apply conj.
  - intros ->. reflexivity.
  - intro H. now rewrite (FloatFacts.leb_not_ltb _ _ H).
  - intros ->. reflexivity.
  - destruct (0 <? Prediction.last_price prediction) eqn:E; [|reflexivity].
    now rewrite (FloatFacts.positive_not_zero _ E).
Qed.

(** C5 at last price 100 (guard taken) and at last price 0 (guard not
    taken), with one forecast point of 110. *)
Lemma percent_change_guarded_witness :
  percentChange (Prediction.mk "X" 100 [point_110]) = ((110 - 100) / 100) * 100 /\
  percentChange (Prediction.mk "X" 0 [point_110]) = 0.
Proof.
  split.
  - apply (percent_change_guarded (Prediction.mk "X" 100 [point_110])). reflexivity.
  - apply (percent_change_guarded (Prediction.mk "X" 0 [point_110])). reflexivity.
Defined.

Local Open Scope string_scope.

(** C4, as stated, fails on arrays holding 10^21: [toFixed(2)] prints a
    magnitude of 10^21 or more in exponent notation, so the range shown,
    "$1e+21 - $1e+21", has no decimals. *)
Lemma range_of_1e21_has_no_decimals :
  ~ (exists a b : string,
       getRangeDisplay [1e21%float] [1e21%float] = "$" ++ a ++ " - $" ++ b /\
       two_decimals a = true /\ two_decimals b = true).
Proof.
  intros (a & b & E & _ & Hb).
  assert (H : two_decimals (getRangeDisplay [1e21%float] [1e21%float]) = true).
  { rewrite E. now repeat apply two_decimals_app. }
  vm_compute in H. discriminate H.
Qed.

(** C4, amended.  [getRangeDisplay] returns the literal "Range not
    available" exactly when the lower or the upper array has no entry other
    than NaN; otherwise it returns "$" min " - $" max, where min is a least
    element of the non-NaN entries of the lower array and max a greatest
    element of the non-NaN entries of the upper array, each printed by
    [toFixed(2)], that is with two decimals when it is finite and below
    10^21 in magnitude.  For two arrays of NaN only it is "Range not
    available". *)
Theorem range_display (lowerArray upperArray : list float) :
  let validLower := filter (fun val => negb (is_nan val)) lowerArray in
  let validUpper := filter (fun val => negb (is_nan val)) upperArray in
  (getRangeDisplay lowerArray upperArray = "Range not available" <->
   (validLower = [] \/ validUpper = [])) /\
  (validLower <> [] -> validUpper <> [] ->
   exists minValue maxValue,
     is_minimum minValue validLower /\
     is_maximum maxValue validUpper /\
     getRangeDisplay lowerArray upperArray =
       "$" ++ toFixed2 minValue ++ " - $" ++ toFixed2 maxValue /\
     (fixed_notation minValue = true -> two_decimals (toFixed2 minValue) = true) /\
     (fixed_notation maxValue = true -> two_decimals (toFixed2 maxValue) = true)) /\
  getRangeDisplay [nan; nan] [nan; nan] = "Range not available".
Proof.
  cbv zeta.
  destruct (getRangeDisplay_cases lowerArray upperArray) as [[He E]|(Hl & Hu & E)];
    cbv zeta in *; rewrite E; (split; [|split; [|reflexivity]]).
  - tauto.
  - intros Hl Hu. tauto.
  - split; [discriminate | tauto].
  - intros _ _. exists (Math_min (filter (fun val => negb (is_nan val)) lowerArray)),
                       (Math_max (filter (fun val => negb (is_nan val)) upperArray)).
    split; [|split; [|split; [reflexivity|split; apply toFixed2_two_decimals]]].
    + apply Math_min_is_minimum; [exact Hl | apply filter_is_no_nan].
    + apply Math_max_is_maximum; [exact Hu | apply filter_is_no_nan].
Qed.

(** The amended C4 on arrays with some NaN entries: the range of
    [3; NaN] and [NaN; 7.239; 2]. *)
Lemma range_display_witness :
  exists minValue maxValue,
    is_minimum minValue [3%float] /\ is_maximum maxValue [7.239%float; 2%float] /\
    getRangeDisplay [3%float; nan] [nan; 7.239%float; 2%float] =
      "$" ++ toFixed2 minValue ++ " - $" ++ toFixed2 maxValue /\
    (fixed_notation minValue = true -> two_decimals (toFixed2 minValue) = true) /\
    (fixed_notation maxValue = true -> two_decimals (toFixed2 maxValue) = true).
Proof.
  apply (range_display [3%float; nan] [nan; 7.239%float; 2%float]); discriminate.
Defined.

(** C9.  In the prediction summary [getRangeDisplay] is applied to the
    sanitized arrays, which hold no NaN: "Range not available" is shown if
    and only if the forecast array is empty, and for every non-empty
    forecast array a "$min - $max" range is shown, also when every
    confidence bound of the input is NaN. *)
Theorem range_sentinel_iff_no_points (prediction : Prediction.t) :
  (forecastRange prediction = "Range not available" <->
   Prediction.forecast prediction = []) /\
  (Prediction.forecast prediction <> [] ->
   forecastRange prediction =
     "$" ++ toFixed2 (Math_min (lowerCI prediction)) ++
     " - $" ++ toFixed2 (Math_max (upperCI prediction))) /\
  forecastRange (Prediction.mk "X" 100 [point_110; point_110]) = "$99.00 - $121.00".
Proof.
  unfold forecastRange.
  destruct (getRangeDisplay_cases (lowerCI prediction) (upperCI prediction))
    as [[He E]|(Hl & Hu & E)]; cbv zeta in *;
    rewrite !filter_no_nan in * by (apply lowerCI_no_nan || apply upperCI_no_nan);
    rewrite E; unfold lowerCI, upperCI in *.
  - assert (Hnil : Prediction.forecast prediction = []).
    { destruct He as [He|He]; now apply map_eq_nil in He. }
    split; [tauto | split; [congruence | reflexivity]].
  - split; [|split; reflexivity].
    split; [discriminate|]. intro Hnil. rewrite Hnil in Hl. now elim Hl.
Qed.

(** C9 at a prediction whose only point has every field absent. *)
Lemma range_sentinel_iff_no_points_witness :
  forecastRange (Prediction.mk "X" 100 [ForecastPoint.mk 0 undefined undefined undefined])
  = "$0.00 - $0.00".
Proof.
  apply (range_sentinel_iff_no_points
           (Prediction.mk "X" 100 [ForecastPoint.mk 0 undefined undefined undefined])).
  discriminate.
Defined.

(** C10.  The sanitizer enforces no order between the series: for the
    prediction with the single point [point_lower_only] the sanitized lower
    value 5 exceeds both the sanitized forecast 0 and the sanitized upper
    value 0, the minimum of the lower array exceeds the maximum of the upper
    array, and the displayed range is "$5.00 - $0.00". *)
Theorem range_can_be_inverted :
  exists prediction : Prediction.t,
    Exists (fun point => (forecastValue point <? lowerValue point)%float = true /\
                         (upperValue point <? lowerValue point)%float = true)
           (Prediction.forecast prediction) /\
    (Math_max (upperCI prediction) <? Math_min (lowerCI prediction))%float = true /\
    forecastRange prediction =
      "$" ++ toFixed2 (Math_min (lowerCI prediction)) ++
      " - $" ++ toFixed2 (Math_max (upperCI prediction)) /\
    forecastRange prediction = "$5.00 - $0.00".
Proof.
  exists (Prediction.mk "X" 100 [point_lower_only]).
  split; [constructor; split; reflexivity|].
  repeat split.
Qed.

Local Open Scope nat_scope.

(** C6 fails on the two-line text "Intro", "- item": the paragraph of the
    result contains a list item, no [<ul>] follows its opening tag (there is
    none at all), and yet a [</ul>] precedes its closing tag.  On "- item",
    "Outro" a [<ul>] is opened and never closed.  A paragraph made of list
    items only is wrapped as the claim says. *)
Theorem list_item_after_text_not_wrapped :
  let out := formatMarkdown ("Intro" ++ LF ++ "- item") in
  (out = "<p>Intro<br><li>item</li></ul></p>" /\
   includes "<li>" out = true /\
   prefix "<p><ul>" out = false /\
   includes "<ul>" out = false /\
   includes "</ul></p>" out = true) /\
  formatMarkdown ("- item" ++ LF ++ "Outro") = "<p><ul><li>item</li><br>Outro</p>" /\
  formatMarkdown ("- a" ++ LF ++ "- b") = "<p><ul><li>a</li><br><li>b</li></ul></p>".
Proof. cbv zeta. repeat split; vm_compute; reflexivity. Qed.

(** C7.  [formatMarkdown "# Title"] is exactly "<p><h1>Title</h1></p>".
    More generally, in a text of LF-separated lines the header
    substitutions turn a line of n hashes (n from 1 to 5), a space and a
    title into the h-n element around the whole title, whatever the lines
    before and after it are; and a text that is one such line, with a title
    free of markup characters, comes out of [formatMarkdown] as that element
    inside one outer paragraph. *)
Theorem header_line (n : nat) (t : string) (before after : list string) :
  1 <= n <= 5 ->
  avoids line_terminator t = true ->
  Forall (fun line => avoids line_terminator line = true) before ->
  Forall (fun line => avoids line_terminator line = true) after ->
  headers (join_lines (before ++ (hashes n ++ " " ++ t) :: after))
  = join_lines (map mark_headers before ++
                ("<" ++ h n ++ ">" ++ t ++ "</" ++ h n ++ ">") :: map mark_headers after) /\
  (plain t = true ->
   formatMarkdown (hashes n ++ " " ++ t)
   = "<p><" ++ h n ++ ">" ++ t ++ "</" ++ h n ++ "></p>") /\
  formatMarkdown "# Title" = "<p><h1>Title</h1></p>".
Proof.
  intros Hn Hline Hb Ha. split; [|split; [|reflexivity]].
  - rewrite headers_lines.
    + now rewrite map_app, <- (mark_headers_header n t Hn).
    + apply Forall_app_line; auto.
      destruct n as [|[|[|[|[|[|n]]]]]]; try lia; exact Hline.
  - clear Hline Hb Ha. intro Ht.
    pose proof (plain_avoids line_terminator t markup_line_terminator Ht) as Hlt.
    pose proof (plain_avoids (Ascii.eqb "*") t (markup_eqb "*" eq_refl) Ht) as Hstar.
    pose proof (plain_avoids (Ascii.eqb "_") t (markup_eqb "_" eq_refl) Ht) as Hund.
    pose proof (plain_avoids (Ascii.eqb "[") t (markup_eqb "[" eq_refl) Ht) as Hbra.
    pose proof (plain_avoids (Ascii.eqb "`") t (markup_eqb "`" eq_refl) Ht) as Htick.
    pose proof (plain_avoids (Ascii.eqb "<") t (markup_eqb "<" eq_refl) Ht) as Hlt'.
    pose proof (plain_avoids (Ascii.eqb "010") t (markup_eqb "010" eq_refl) Ht) as Hnl.
    destruct n as [|[|[|[|[|[|n]]]]]]; try lia; clear Hn;
      cbn [hashes append]; unfold formatMarkdown, substitutions, headers; cbv zeta.
    + header_case "# " t.
    + header_case "## " t.
    + header_case "### " t.
    + header_case "#### " t.
    + header_case "##### " t.
Qed.

(** C7 at a level-3 header, between two other lines and alone. *)
Lemma header_line_witness :
  headers (join_lines ["Report"; "### Market outlook"; "Body"])
  = join_lines ["Report"; "<h3>Market outlook</h3>"; "Body"] /\
  formatMarkdown "### Market outlook" = "<p><h3>Market outlook</h3></p>".
Proof.
  destruct (header_line 3 "Market outlook" ["Report"] ["Body"]) as (H1 & H2 & _);
    [lia | reflexivity | repeat constructor | repeat constructor |].
  split; [exact H1 | apply H2; reflexivity].
Defined.

(** C8.  In "**bold** and *italic*" the bold span and the italic span are
    both rendered: the [**] substitution runs before the [*] substitution,
    which would otherwise consume the bold delimiters as two empty italic
    spans; likewise [__] runs before [_]. *)
Theorem bold_before_italic :
  let text := "**bold** and *italic*" in
  formatMarkdown text = "<p><strong>bold</strong> and <em>italic</em></p>" /\
  includes "<strong>bold</strong>" (formatMarkdown text) = true /\
  includes "<em>italic</em>" (formatMarkdown text) = true /\
  replace (delimited "*") (wrap "em") (replace (delimited "**") (wrap "strong") text)
    = "<strong>bold</strong> and <em>italic</em>" /\
  replace (delimited "*") (wrap "em") text
    = "<em></em>bold<em></em> and <em>italic</em>" /\
  formatMarkdown "__bold__ and _italic_"
    = "<p><strong>bold</strong> and <em>italic</em></p>".
Proof. cbv zeta. repeat split; vm_compute; reflexivity. Qed.

(** * Further properties of dashboard.js *)

(** ** The prediction summary: renderPredictionCharts (lines 467-484) and
    getRangeDisplay (lines 620-634) *)

Import Order FloatFacts TrendFacts RangeOrder.
Local Open Scope float_scope.

(** X1.  The trend shown is neutral whenever there is nothing to compare:
    when the last price is not a positive number, or when no forecast value
    is a positive number (the average then falls back to the last price). *)
Theorem trend_neutral_without_signal (prediction : Prediction.t) :
  (0 <? Prediction.last_price prediction) = false \/ validValues prediction = [] ->
  trendClass prediction = "trend-neutral"%string.
Proof.
  intro H. unfold trendClass.
  assert (Hpc : Prim2SF (percentChange prediction) = S754_zero false \/
                Prim2SF (percentChange prediction) = S754_nan).
  { unfold percentChange.
    destruct (0 <? Prediction.last_price prediction) eqn:E; [|now left].
    destruct H as [H|H]; [discriminate|].
    unfold avgForecast. cbv zeta. rewrite H. cbn [List.length Nat.ltb Nat.leb].
    now apply self_change. }
  destruct (not_positive_not_negative _ Hpc) as [-> ->]. reflexivity.
Qed.

Lemma trend_neutral_without_signal_witness :
  trendClass (Prediction.mk "AAPL" 100 [point_lower_only; point_lower_only])
  = "trend-neutral"%string.
Proof. apply trend_neutral_without_signal. right. reflexivity. Defined.

(** X2.  getRangeDisplay shows an ordered range as soon as some entry of the
    lower array is at most some entry of the upper array: the sentinel is
    not returned, and the minimum shown is at most the maximum shown. *)
Theorem range_ordered (lowerArray upperArray : list float) (l u : float) :
  In l lowerArray -> In u upperArray -> (l <=? u) = true ->
  let validLower := filter (fun val => negb (is_nan val)) lowerArray in
  let validUpper := filter (fun val => negb (is_nan val)) upperArray in
  (Math_min validLower <=? Math_max validUpper) = true /\
  getRangeDisplay lowerArray upperArray
  = ("$" ++ toFixed2 (Math_min validLower) ++ " - $" ++ toFixed2 (Math_max validUpper))%string.
Proof.
  intros Hl Hu Hle. cbv zeta.
  apply leb_key in Hle as Hk. destruct Hk as (Nl & Nu & _).
  pose proof (valid_member _ _ Hl Nl) as Il.
  pose proof (valid_member _ _ Hu Nu) as Iu.
  split.
  - exact (min_below_max _ _ l u (filter_is_no_nan _) (filter_is_no_nan _) Il Iu Hle).
  - destruct (getRangeDisplay_cases lowerArray upperArray) as [[[He|He] _]|(_ & _ & E)];
      cbv zeta in *; [rewrite He in Il; destruct Il | rewrite He in Iu; destruct Iu | exact E].
Qed.

Lemma range_ordered_witness :
  (Math_min [95; 90] <=? Math_max [105; 120]) = true /\
  getRangeDisplay [95; nan; 90] [105; 120] = "$90.00 - $120.00"%string.
Proof.
  apply (range_ordered [95; nan; 90] [105; 120] 95 105); [cbn; auto | cbn; auto | reflexivity].
Defined.

(** X3.  In the summary card, one forecast point whose two bounds are numbers
    in order is enough for the range to be ordered, whatever the other
    points hold. *)
Theorem summary_range_ordered (prediction : Prediction.t) (point : ForecastPoint.t) :
  In point (Prediction.forecast prediction) ->
  (ToNumber (ForecastPoint.lower_ci point) <=? ToNumber (ForecastPoint.upper_ci point)) = true ->
  (Math_min (lowerCI prediction) <=? Math_max (upperCI prediction)) = true.
Proof.
  intros Hin Hle.
  apply leb_key in Hle as Hk. destruct Hk as (Nl & Nu & _).
  apply (min_below_max _ _ (lowerValue point) (upperValue point));
    [apply lowerCI_no_nan | apply upperCI_no_nan | | |].
  - unfold lowerCI. now apply in_map.
  - unfold upperCI. now apply in_map.
  - unfold lowerValue, upperValue, isNaN. now rewrite Nl, Nu.
Qed.

Lemma summary_range_ordered_witness :
  let point := ForecastPoint.mk 0 (number 100) (number 95) (number 105) in
  (Math_min (lowerCI (Prediction.mk "AAPL" 98 [point_110; point]))
   <=? Math_max (upperCI (Prediction.mk "AAPL" 98 [point_110; point]))) = true.
Proof.
  cbv zeta.
  apply (summary_range_ordered (Prediction.mk "AAPL" 98 [point_110; _])
           (ForecastPoint.mk 0 (number 100) (number 95) (number 105)));
    [cbn; auto | reflexivity].
Defined.

(** X4.  A NaN entry, in either array and at any position, does not change
    what getRangeDisplay returns. *)
Theorem range_ignores_nan (before after other : list float) (v : float) :
  is_nan v = true ->
  getRangeDisplay (before ++ v :: after) other = getRangeDisplay (before ++ after) other /\
  getRangeDisplay other (before ++ v :: after) = getRangeDisplay other (before ++ after).
Proof.
  intro H. unfold getRangeDisplay. cbv zeta.
  rewrite !filter_app. cbn [filter]. rewrite H. cbn [negb]. auto.
Qed.

Lemma range_ignores_nan_witness :
  getRangeDisplay ([95] ++ nan :: [90]) [120] = getRangeDisplay ([95] ++ [90]) [120] /\
  getRangeDisplay [120] ([95] ++ nan :: [90]) = getRangeDisplay [120] ([95] ++ [90]).
Proof. apply (range_ignores_nan [95] [90] [120] nan). reflexivity. Defined.

(** ** The query of the data requests (lines 167-168, 261-262, 292-293,
    327-328) *)

Import Query QueryFacts.
Local Open Scope nat_scope.
Local Open Scope string_scope.

(** X5.  The request URL determines the selection and the time horizon: two
    selections whose symbols hold no [&] that give the same URL for a path
    are the same list, and so are the two horizons. *)
Theorem url_unambiguous (path : string) (selected selected' : list string)
        (horizon horizon' : string) :
  Forall (fun s => avoids (Ascii.eqb "&") s = true) selected ->
  Forall (fun s => avoids (Ascii.eqb "&") s = true) selected' ->
  url path selected horizon = url path selected' horizon' ->
  selected = selected' /\ horizon = horizon'.
Proof.
  intros H H' E. unfold url in E.
  apply append_cancel_l in E. cbn [append] in E. injection E as E.
  revert selected' H' E.
  induction H as [|s rest Hs H IH]; intros selected' H' E; destruct H' as [|s' rest' Hs' H'].
  - cbn in E. injection E as ->. auto.
  - rewrite symbolsParam_cons in E. discriminate.
  - rewrite symbolsParam_cons in E. discriminate.
  - rewrite !symbolsParam_cons in E. rewrite <- !append_assoc in E.
    cbn [append] in E. injection E as E.
    destruct (value_unambiguous s s' _ _ Hs Hs' (separated_tail rest horizon)
                (separated_tail rest' horizon') E) as [-> Eo].
    destruct rest as [|r rest], rest' as [|r' rest']; cbn [others append] in Eo.
    + injection Eo as ->. auto.
    + rewrite symbolsParam_cons in Eo. discriminate.
    + rewrite symbolsParam_cons in Eo. discriminate.
    + injection Eo as Eo. destruct (IH _ H' Eo) as [-> ->]. auto.
Qed.

Lemma url_unambiguous_witness :
  ["AAPL"; "MSFT"] = ["AAPL"; "MSFT"] /\ "6mo" = "6mo".
Proof.
  apply (url_unambiguous "/api/predictions" ["AAPL"; "MSFT"] ["AAPL"; "MSFT"] "6mo" "6mo");
    repeat constructor.
Defined.

(** X6.  Symbols are put in the query as they are: a symbol that holds
    [&symbols=] gives the same query as two symbols. *)
Theorem symbolsParam_not_encoded (a b : string) (rest : list string) :
  symbolsParam ((a ++ "&symbols=" ++ b) :: rest) = symbolsParam (a :: b :: rest).
Proof.
  rewrite !symbolsParam_cons. cbn [others]. rewrite symbolsParam_cons.
  rewrite <- !append_assoc. reflexivity.
Qed.

(** ** formatMarkdown (lines 637-682) *)

Import Scan Shape RegExpFacts LineFacts CaptureFacts ProseFacts SpanFacts GroupFacts.
Import ItemFacts NumberFacts ListFacts VerbatimFacts WrapFacts.


(** X8.  For every text that is not empty, the HTML returned starts with
    [<p>], list or not. *)
Theorem formatMarkdown_opens_paragraph (text : string) :
  text <> "" -> exists rest, formatMarkdown text = "<p>" ++ rest.
Proof.
  intro Hne. destruct text as [|c s]; [congruence|]. apply fix_lists_head.
Qed.

Lemma formatMarkdown_opens_paragraph_witness :
  exists rest, formatMarkdown "# Outlook" = "<p>" ++ rest.
Proof. apply (formatMarkdown_opens_paragraph "# Outlook"). discriminate. Defined.

(** X9.  Prose: runs of prose lines separated by single empty lines come out
    as paragraphs, with [<br>] between the lines of a run and nothing else
    changed. *)
Theorem prose_paragraphs (lines : list string) :
  Calm lines ->
  formatMarkdown (join_lines lines) = "<p>" ++ render lines ++ "</p>".
Proof.
  intro H. destruct (Calm_head _ H) as (c & s & E & _).
  unfold formatMarkdown. rewrite E. rewrite <- E. clear c s E.
  assert (Hs : substitutions (join_lines lines) = render lines).
  { unfold substitutions, headers. cbv zeta.
    repeat calm_stage H.
    unfold replace. rewrite blank_line_calm by exact H. now apply newline_calm. }
  rewrite Hs. unfold fix_lists.
  assert (Hi : includes "<li>" ("<p>" ++ render lines ++ "</p>") = false).
  { cbn [append]. cbn. now apply render_no_list_item. }
  now rewrite Hi.
Qed.

Lemma prose_paragraphs_witness :
  formatMarkdown (join_lines ["Markets rose."; "Tech led."; ""; "Outlook: stable."])
  = "<p>Markets rose.<br>Tech led.</p><p>Outlook: stable.</p>".
Proof.
  apply (prose_paragraphs ["Markets rose."; "Tech led."; ""; "Outlook: stable."]).
  apply calm_break; [reflexivity|].
  apply calm_paragraph; [reflexivity|].
  apply calm_last. reflexivity.
Defined.

(** X10.  Nothing is escaped: a one-line text that starts like no block
    construct and holds no emphasis, link or code character and no [<li>]
    is copied as it is between [<p>] and [</p>], tags included. *)
Theorem inert_line_verbatim (t : string) :
  inert t = true -> includes "<li>" t = false ->
  formatMarkdown t = "<p>" ++ t ++ "</p>".
Proof.
  intros Hi Hl. destruct (inert_inv t Hi) as (Hne & Hq & Hr). reactive_facts t Hr.
  assert (Ef : formatMarkdown t = fix_lists ("<p>" ++ substitutions t ++ "</p>")).
  { destruct t; [congruence | reflexivity]. }
  rewrite Ef. unfold substitutions, headers; cbv zeta.
  repeat inert_stage Hq.
  unfold fix_lists. now rewrite includes_wrapped, Hl.
Qed.

Lemma inert_line_verbatim_witness :
  formatMarkdown "Risk is <b>high</b> & rising"
  = "<p>Risk is <b>high</b> & rising</p>".
Proof. apply (inert_line_verbatim "Risk is <b>high</b> & rising"); reflexivity. Defined.

(** X11.  There is no header of level six or more: a line of six or more
    hashes, a space and a plain title is left as text. *)
Theorem deep_header_unmarked (n : nat) (x : string) :
  6 <= n -> plain x = true ->
  formatMarkdown (hashes n ++ " " ++ x) = "<p>" ++ hashes n ++ " " ++ x ++ "</p>".
Proof.
  intros Hn Ht. plain_facts x Ht.
  replace n with (6 + (n - 6)) by lia. generalize (n - 6). clear n Hn. intro m.
  pose proof (hashes_avoids line_terminator m eq_refl).
  pose proof (hashes_avoids (Ascii.eqb "*") m eq_refl).
  pose proof (hashes_avoids (Ascii.eqb "_") m eq_refl).
  pose proof (hashes_avoids (Ascii.eqb "[") m eq_refl).
  pose proof (hashes_avoids (Ascii.eqb "`") m eq_refl).
  pose proof (hashes_avoids (Ascii.eqb "<") m eq_refl).
  pose proof (hashes_avoids (Ascii.eqb "010") m eq_refl).
  cbn [hashes Nat.add append].
  unfold formatMarkdown, substitutions, headers; cbv zeta.
  repeat quiet_stage.
  no_list_items_all; reflexivity.
Qed.

Lemma deep_header_unmarked_witness :
  formatMarkdown "###### Risks" = "<p>###### Risks</p>".
Proof. apply (deep_header_unmarked 6 "Risks"); [lia | reflexivity]. Defined.

(** X12.  A one-line text [> t] with a plain [t] becomes a blockquote
    around [t]. *)
Theorem blockquote_line (t : string) :
  plain t = true ->
  formatMarkdown ("> " ++ t) = "<p><blockquote>" ++ t ++ "</blockquote></p>".
Proof.
  intro Ht. plain_facts t Ht.
  cbn [append]; unfold formatMarkdown, substitutions, headers; cbv zeta.
  header_case "> " t.
Qed.

Lemma blockquote_line_witness :
  formatMarkdown "> Past performance is no guarantee."
  = "<p><blockquote>Past performance is no guarantee.</blockquote></p>".
Proof. apply (blockquote_line "Past performance is no guarantee."). reflexivity. Defined.

(** X13.  A plain stretch between doubled stars or underscores becomes
    [<strong>], between single ones [<em>]. *)
Theorem emphasis_spans (x : string) :
  plain x = true ->
  formatMarkdown ("**" ++ x ++ "**") = "<p><strong>" ++ x ++ "</strong></p>" /\
  formatMarkdown ("__" ++ x ++ "__") = "<p><strong>" ++ x ++ "</strong></p>" /\
  formatMarkdown ("*" ++ x ++ "*") = "<p><em>" ++ x ++ "</em></p>" /\
  formatMarkdown ("_" ++ x ++ "_") = "<p><em>" ++ x ++ "</em></p>".
Proof.
  intro Ht. plain_facts x Ht. repeat apply conj.
  - span_case "*"%char "*" x.
  - span_case "_"%char "_" x.
  - span_case "*"%char "" x.
  - span_case "_"%char "" x.
Qed.

Lemma emphasis_spans_witness :
  formatMarkdown "**risk**" = "<p><strong>risk</strong></p>" /\
  formatMarkdown "__risk__" = "<p><strong>risk</strong></p>" /\
  formatMarkdown "*risk*" = "<p><em>risk</em></p>" /\
  formatMarkdown "_risk_" = "<p><em>risk</em></p>".
Proof. apply (emphasis_spans "risk"). reflexivity. Defined.

(** X14.  A plain stretch, not empty, between backticks becomes [<code>]. *)
Theorem inline_code (x : string) :
  plain x = true -> x <> "" ->
  formatMarkdown ("`" ++ x ++ "`") = "<p><code>" ++ x ++ "</code></p>".
Proof.
  intros Ht Hne. plain_facts x Ht.
  unfold formatMarkdown, substitutions, headers; cbv zeta. cbn [append].
  repeat first
    [ quiet_stage
    | innermost ltac:(fun r tm s =>
        let E := fresh "E" in
        assert (E : replace r tm s = expand tm [x]) by
          (apply (replace_code x); assumption);
        rewrite E; clear E; cbn [expand wrap nth append Nat.sub]) ].
  no_list_items_all; reflexivity.
Qed.

Lemma inline_code_witness :
  formatMarkdown "`AAPL`" = "<p><code>AAPL</code></p>".
Proof. apply (inline_code "AAPL"); [reflexivity | discriminate]. Defined.

(** X15.  [[a](u)] with a plain text [a] and a plain address [u], neither
    empty, becomes an anchor to [u] that opens in a new tab. *)
Theorem inline_link (a u : string) :
  plain a = true -> plain u = true -> a <> "" -> u <> "" ->
  avoids (Ascii.eqb "]") a = true -> avoids (Ascii.eqb ")") u = true ->
  formatMarkdown ("[" ++ a ++ "](" ++ u ++ ")")
  = "<p><a href=" ++ dq ++ u ++ dq ++ " target=" ++ dq ++ "_blank" ++ dq ++ ">"
    ++ a ++ "</a></p>".
Proof.
  intros Ha Hu Hna Hnu Hca Hcu. plain_facts a Ha. plain_facts u Hu.
  unfold formatMarkdown, substitutions, headers; cbv zeta. cbn [append].
  repeat first
    [ quiet_stage
    | innermost ltac:(fun r tm s =>
        let E := fresh "E" in
        assert (E : replace r tm s = expand tm [a; u]) by
          (apply (replace_link a u); assumption);
        rewrite E; clear E; cbn [expand anchor nth append Nat.sub]) ].
  no_list_items_all; reflexivity.
Qed.

Lemma inline_link_witness :
  formatMarkdown "[SEC filing](https://www.sec.gov/)"
  = "<p><a href=" ++ dq ++ "https://www.sec.gov/" ++ dq ++ " target=" ++ dq
    ++ "_blank" ++ dq ++ ">SEC filing</a></p>".
Proof.
  apply (inline_link "SEC filing" "https://www.sec.gov/");
    (reflexivity || discriminate).
Defined.

(** X16.  A one-line text made of a bullet ([-] or [*]), a space and a plain
    text that does not start with white space becomes a list of one item,
    wrapped in [<ul>]. *)
Theorem bullet_item_line (c : ascii) (x : string) :
  bullet c = true -> plain x = true -> flush x = true ->
  formatMarkdown (String c (" " ++ x)) = "<p><ul><li>" ++ x ++ "</li></ul></p>".
Proof.
  intros Hb Ht Hf. plain_facts x Ht.
  unfold formatMarkdown, substitutions, headers; cbv zeta. cbn [append].
  destruct (bullet_cases c Hb); subst c.
  - repeat first
      [ quiet_stage
      | innermost ltac:(fun r tm s =>
          let E := fresh "E" in
          assert (E : replace r tm s = expand tm [x]) by
            (apply (replace_bullet "-" x); assumption);
          rewrite E; clear E; cbn [expand wrap nth append Nat.sub]) ].
    cbn [append]. rewrite <- append_assoc. now apply (fix_lists_item x).
  - repeat first
      [ quiet_stage
      | lone_stage "*"%char (" " ++ x)
      | innermost ltac:(fun r tm s =>
          let E := fresh "E" in
          assert (E : replace r tm s = expand tm [x]) by
            (apply (replace_bullet "*" x); assumption);
          rewrite E; clear E; cbn [expand wrap nth append Nat.sub]) ].
    cbn [append]. rewrite <- append_assoc. now apply (fix_lists_item x).
Qed.

Lemma bullet_item_line_witness :
  formatMarkdown "- Buy on dips" = "<p><ul><li>Buy on dips</li></ul></p>".
Proof. apply (bullet_item_line "-" "Buy on dips"); reflexivity. Defined.

(** X17.  A numbered item is rendered like a bullet: the number is dropped
    and the item is wrapped in [<ul>], not [<ol>]. *)
Theorem ordered_item_line (ds x : string) :
  ds <> "" -> all_digits ds = true -> plain x = true -> flush x = true ->
  formatMarkdown (ds ++ ". " ++ x) = "<p><ul><li>" ++ x ++ "</li></ul></p>".
Proof.
  intros Hne Hds Ht Hf. plain_facts x Ht. digits_facts ds Hds.
  assert (Ef : formatMarkdown (ds ++ ". " ++ x)
               = fix_lists ("<p>" ++ substitutions (ds ++ ". " ++ x) ++ "</p>")).
  { destruct ds; [congruence | reflexivity]. }
  rewrite Ef. unfold substitutions, headers; cbv zeta. cbn [append].
  repeat first
    [ digits_quiet_stage
    | quiet_stage
    | innermost ltac:(fun r tm s =>
        let E := fresh "E" in
        assert (E : replace r tm s = expand tm [x]) by
          (apply (replace_ordered ds x); assumption);
        rewrite E; clear E; cbn [expand wrap nth append Nat.sub]) ].
  cbn [append]. rewrite <- append_assoc. now apply (fix_lists_item x).
Qed.

Lemma ordered_item_line_witness :
  formatMarkdown "12. Rebalance" = "<p><ul><li>Rebalance</li></ul></p>".
Proof. apply (ordered_item_line "12" "Rebalance"); (discriminate || reflexivity). Defined.

(** X18.  Consecutive bullet lines become one list: the items, each in
    [<li>], are joined by [<br>] and wrapped together in one [<ul>]. *)
Theorem bullet_list (items : list string) :
  items <> [] -> Forall (fun x => item x = true) items ->
  formatMarkdown (join_lines (map dash items))
  = "<p><ul>" ++ join "<br>" (map li items) ++ "</ul></p>".
Proof.
  intros Hne H.
  assert (Ef : formatMarkdown (join_lines (map dash items))
               = fix_lists ("<p>" ++ substitutions (join_lines (map dash items)) ++ "</p>")).
  { destruct items as [|x [|y rest]]; [congruence | reflexivity | reflexivity]. }
  rewrite Ef.
  assert (Hs : substitutions (join_lines (map dash items)) = join "<br>" (map li items)).
  { unfold substitutions, headers. cbv zeta.
    repeat lines_stage Hne H.
    assert (Eb : replace bullet_item (wrap "li") (join_lines (map dash items))
                 = join_lines (map li items)).
    { unfold replace. now apply bullet_lines. }
    rewrite Eb.
    repeat lines_stage Hne H.
    assert (Ep : replace blank_line [Text "</p><p>"] (join_lines (map li items))
                 = join_lines (map li items)).
    { unfold replace. apply blank_line_lines; [now apply map_not_nil|].
      apply Forall_map. eapply Forall_impl; [|exact H]. cbn beta. intros x Hx.
      destruct (item_inv x Hx) as (Hp & _). plain_facts x Hp.
      split; [now apply li_avoids | unfold li; cbn [append]; eauto]. }
    rewrite Ep. unfold replace. apply newline_lines; [now apply map_not_nil|].
    apply Forall_map. eapply Forall_impl; [|exact H]. cbn beta. intros x Hx.
    destruct (item_inv x Hx) as (Hp & _). plain_facts x Hp. now apply li_avoids. }
  rewrite Hs. now apply fix_lists_items.
Qed.

Lemma bullet_list_witness :
  formatMarkdown (join_lines (map dash ["Buy"; "Hold"; "Sell"]))
  = "<p><ul><li>Buy</li><br><li>Hold</li><br><li>Sell</li></ul></p>".
Proof.
  apply (bullet_list ["Buy"; "Hold"; "Sell"]); [discriminate | repeat constructor].
Defined.
